(** * run_multiview.py: camera positions from filenames, remeshing parameters

    A shallow embedding of the pure parts of [run_multiview.py]:
    - [check_positive], the argparse type of [--target_count];
    - [extract_structured_camera_positions], which matches every base
      filename against [position_pattern] with [re.match] and converts the
      three numeric groups with [float];
    - the directory scan and the two-image check of the script body;
    - the derivation of [vertex_count].

    Python [str] is modelled as [list ascii]: code points below 256, on which
    the class [\d] of [re] is exactly the ten ASCII digits.  A Python [float]
    is an IEEE binary64 value, modelled by [spec_float] at precision 53 and
    maximal exponent 1024.  [os.path] is [posixpath].  A call is modelled by
    what it returns or raises together with the lines it prints.

    The file has three parts: the embedding and the predicates the
    statements use; the theory of the matcher and of [position_pattern]
    (soundness and completeness of the backtracking matcher against its
    declarative reading, and the fact that a name has one reading); the
    properties of the extractor and of the script. *)

From Stdlib Require Import Ascii String.
From Stdlib Require Import Bool Arith ZArith List Lia.
From Stdlib Require Import DecimalString SpecFloat.
From Stdlib Require Import Sorted Permutation DecimalNat Nnat FinFun.
Import ListNotations.

Set Implicit Arguments.
Local Open Scope char_scope.
Local Open Scope list_scope.

(** ** Strings *)

Definition str := list ascii.

(** A string literal of the source. *)
Definition lit (s : string) : str := list_ascii_of_string s.

Definition newline : ascii := "010".

(** [f"{n}"] for a non-negative [int]. *)
Definition str_of_nat (n : nat) : str :=
  lit (NilZero.string_of_uint (Nat.to_uint n)).

(** ** Regular expressions, as [re] runs them

    The fragment of the [re] syntax that [position_pattern] is written in.
    Every quantifier of the pattern applies to a one-character item, so the
    quantifiers take an [item]. *)

Module Re.

Inductive item : Type :=
| Dot                       (* [.]   any character except a newline *)
| Digit                     (* [\d] *)
| Char (c : ascii).         (* a literal character, escaped or not *)

Inductive regex : Type :=
| One (a : item)            (* [a]  *)
| Star (a : item)           (* [a*], greedy *)
| Plus (a : item)           (* [a+], greedy *)
| Opt (a : item)            (* [a?], greedy *)
| Cat (r1 r2 : regex)       (* [r1r2] *)
| Alt (r1 r2 : regex)       (* [r1|r2], left to right *)
| Group (n : nat) (r : regex)   (* the n-th capturing group [(r)] *)
| Dollar.                   (* [$] without MULTILINE *)

Definition is_digit (c : ascii) : bool :=
  let n := nat_of_ascii c in (48 <=? n)%nat && (n <=? 57)%nat.

Definition accepts (a : item) (c : ascii) : bool :=
  match a with
  | Dot => negb (Ascii.eqb c newline)
  | Digit => is_digit c
  | Char d => Ascii.eqb c d
  end.

(** The groups of a match object: the latest binding of a group comes
    first. *)
Definition groups := list (nat * str).

Fixpoint group (g : groups) (n : nat) : option str :=
  match g with
  | [] => None
  | (m, s) :: g' => if Nat.eqb m n then Some s else group g' n
  end.

Definition orelse {A} (x y : option A) : option A :=
  match x with
  | Some _ => x
  | None => y
  end.

Section Matcher.
Variable R : Type.

(** Greedy repetition of a one-character item: take as many characters as
    the item accepts, and give them back one at a time while the rest of
    the pattern fails. *)
Fixpoint star (a : item) (s : str) (k : str -> option R) : option R :=
  match s with
  | c :: s' => if accepts a c then orelse (star a s' k) (k s) else k s
  | [] => k []
  end.

(** What [r] consumed when it was entered on [s] and left on [s']. *)
Definition consumed (s s' : str) : str :=
  firstn (List.length s - List.length s') s.

(** The backtracking matcher, in continuation-passing style: [k] is the
    rest of the pattern, run on the rest of the string. *)
Fixpoint run (r : regex) (s : str) (g : groups)
    (k : str -> groups -> option R) : option R :=
  match r with
  | One a =>
      match s with
      | c :: s' => if accepts a c then k s' g else None
      | [] => None
      end
  | Star a => star a s (fun s' => k s' g)
  | Plus a =>
      match s with
      | c :: s' => if accepts a c then star a s' (fun s'' => k s'' g) else None
      | [] => None
      end
  | Opt a =>
      match s with
      | c :: s' => if accepts a c then orelse (k s' g) (k s g) else k s g
      | [] => k [] g
      end
  | Cat r1 r2 => run r1 s g (fun s' g' => run r2 s' g' k)
  | Alt r1 r2 => orelse (run r1 s g k) (run r2 s g k)
  | Group n r' => run r' s g (fun s' g' => k s' ((n, consumed s s') :: g'))
  | Dollar =>
      match s with
      | [] => k s g
      | [c] => if Ascii.eqb c newline then k s g else None
      | _ => None
      end
  end.
End Matcher.

(** [re.match(r, s)]: the pattern is tried at the start of [s] only; the
    result is the groups of the first successful path, or [None]. *)
Definition re_match (r : regex) (s : str) : option groups :=
  run r s [] (fun _ g => Some g).

(** The paths of [run], declaratively: a successful path through [r]
    consumes [s] in front of [rest] and takes the groups [g] to [g']. *)
Inductive matches : regex -> str -> str -> groups -> groups -> Prop :=
| M_One a c rest g :
    accepts a c = true -> matches (One a) [c] rest g g
| M_Star a s rest g :
    forallb (accepts a) s = true -> matches (Star a) s rest g g
| M_Plus a c s rest g :
    accepts a c = true -> forallb (accepts a) s = true ->
    matches (Plus a) (c :: s) rest g g
| M_Opt_one a c rest g :
    accepts a c = true -> matches (Opt a) [c] rest g g
| M_Opt_none a rest g :
    matches (Opt a) [] rest g g
| M_Cat r1 r2 s1 s2 rest g g1 g2 :
    matches r1 s1 (s2 ++ rest) g g1 -> matches r2 s2 rest g1 g2 ->
    matches (Cat r1 r2) (s1 ++ s2) rest g g2
| M_Alt_l r1 r2 s rest g g' :
    matches r1 s rest g g' -> matches (Alt r1 r2) s rest g g'
| M_Alt_r r1 r2 s rest g g' :
    matches r2 s rest g g' -> matches (Alt r1 r2) s rest g g'
| M_Group n r s rest g g' :
    matches r s rest g g' -> matches (Group n r) s rest g ((n, s) :: g')
| M_Dollar rest g :
    rest = [] \/ rest = [newline] -> matches Dollar [] rest g g.

End Re.

Import Re.

(** [-?\d+\.?\d*] *)
Definition number_re : regex :=
  Cat (Opt (Char "-")) (Cat (Plus Digit) (Cat (Opt (Char ".")) (Star Digit))).

(** [png|jpg|jpeg] *)
Definition extension_re : regex :=
  Alt (Cat (One (Char "p")) (Cat (One (Char "n")) (One (Char "g"))))
   (Alt (Cat (One (Char "j")) (Cat (One (Char "p")) (One (Char "g"))))
        (Cat (One (Char "j")) (Cat (One (Char "p")) (Cat (One (Char "e")) (One (Char "g")))))).

(** The pattern of the source, [.*_(N)_(N)_(N)\.(png|jpg|jpeg)$] with the
    text of [number_re] for each [N]. *)
Definition position_pattern : regex :=
  Cat (Star Dot)
   (Cat (One (Char "_")) (Cat (Group 1 number_re)
   (Cat (One (Char "_")) (Cat (Group 2 number_re)
   (Cat (One (Char "_")) (Cat (Group 3 number_re)
   (Cat (One (Char ".")) (Cat (Group 4 extension_re) Dollar)))))))).

(** ** [os.path.basename] ([posixpath]): what follows the last slash. *)

Fixpoint basename_from (p acc : str) : str :=
  match p with
  | [] => acc
  | c :: p' => if Ascii.eqb c "/" then basename_from p' [] else basename_from p' (acc ++ [c])
  end.

Definition basename (p : str) : str := basename_from p [].

(** ** Exceptions and results *)

Inductive exn : Type :=
| ValueError (msg : str)
| TypeError (msg : str)
| AttributeError (msg : str)
| ArgumentTypeError (msg : str)
| SystemExit (status : Z).

Inductive outcome (A : Type) : Type :=
| Return (a : A)
| Raise (e : exn).
Arguments Return {A} a.
Arguments Raise {A} e.

Definition bind {A B} (x : outcome A) (f : A -> outcome B) : outcome B :=
  match x with
  | Return a => f a
  | Raise e => Raise e
  end.

Notation "x <- c1 ;; c2" := (bind c1 (fun x => c2))
  (at level 61, c1 at next level, right associativity).

(** ** The builtin [float] on a string

    A signed plain decimal, [[+-]? (D+ [. D*] | . D+)], is converted to the
    nearest binary64 value, ties to even; every other string is a
    [ValueError].  Python accepts more (exponents, underscores between
    digits, surrounding whitespace, inf and nan); no string a group of
    [position_pattern] can capture has such a form. *)

Definition pyfloat := spec_float.

Definition prec : Z := 53.
Definition emax : Z := 1024.

Definition digit_value (c : ascii) : N := N.of_nat (nat_of_ascii c - 48).

(** The longest prefix of digits, read as a decimal numeral on top of
    [acc], with the number of digits read and the rest of the string. *)
Fixpoint read_digits (s : str) (acc : N) (n : nat) : N * nat * str :=
  match s with
  | c :: s' =>
      if is_digit c then read_digits s' (10 * acc + digit_value c)%N (S n)
      else (acc, n, s)
  | [] => (acc, n, [])
  end.

Fixpoint pow10 (k : nat) : positive :=
  match k with
  | O => 1
  | S k' => 10 * pow10 k'
  end.

(** The value [m / 10^k], negated when [neg], rounded to binary64. *)
Definition round_decimal (neg : bool) (m : N) (k : nat) : pyfloat :=
  match m with
  | N0 => S754_zero neg
  | Npos p => SFdiv prec emax (S754_finite neg p 0)
                (S754_finite false (pow10 k) 0)
  end.

Definition float_error (s : str) : exn :=
  ValueError (lit "could not convert string to float: '" ++ s ++ lit "'").

(** The decimal a string denotes: its sign, its digits read as one
    numeral [m] and the number [k] of digits after the dot, for the value
    [m / 10^k]; [body] is the string without its sign. *)
Definition decimal_unsigned (neg : bool) (body : str) : option (bool * N * nat) :=
  let '(ip, ni, rest) := read_digits body 0%N 0 in
  match rest with
  | [] => if (ni =? 0)%nat then None else Some (neg, ip, 0)
  | c :: frac =>
      if Ascii.eqb c "." then
        let '(m, nf, rest') := read_digits frac ip 0 in
        match rest' with
        | [] => if ((ni + nf) =? 0)%nat then None else Some (neg, m, nf)
        | _ :: _ => None
        end
      else None
  end.

Definition decimal_of_str (s : str) : option (bool * N * nat) :=
  match s with
  | c :: t =>
      if Ascii.eqb c "-" then decimal_unsigned true t
      else if Ascii.eqb c "+" then decimal_unsigned false t
      else decimal_unsigned false s
  | [] => None
  end.

Definition py_float (s : str) : outcome pyfloat :=
  match decimal_of_str s with
  | Some (neg, m, k) => Return (round_decimal neg m k)
  | None => Raise (float_error s)
  end.

(** ** [extract_structured_camera_positions] *)

(** The options of the command line that the embedded code reads.  The two
    remeshing options exist only when a remesher is available: [None] is an
    attribute the parser never defined. *)
Record Namespace : Type := {
  image_dir : str;
  detect_camera_positions : bool;
  reduction_count_type : option str;
  target_count : option Z
}.

(** [[x, y, z]] *)
Definition position := list pyfloat.

(** [float(match.group(n))] *)
Definition float_group (m : groups) (n : nat) : outcome pyfloat :=
  match group m n with
  | Some s => py_float s
  | None => Raise (TypeError (lit "float() argument must be a string or a real number, not 'NoneType'"))
  end.

(** The body of the loop, on index [i] and path [image_path]. *)
Definition visit (i : nat) (image_path : str) (st : list position * list nat)
  : outcome (list position * list nat) :=
  let '(positions, valid_indices) := st in
  let filename := basename image_path in
  match re_match position_pattern filename with
  | Some m =>
      x <- float_group m 1 ;;
      y <- float_group m 2 ;;
      z <- float_group m 3 ;;
      Return (positions ++ [[x; y; z]], valid_indices ++ [i])
  | None => Return st
  end.

(** [for i, image_path in enumerate(images)], from index [i] on. *)
Fixpoint visit_all (images : list str) (i : nat) (st : list position * list nat)
  : outcome (list position * list nat) :=
  match images with
  | [] => Return st
  | image_path :: rest => st' <- visit i image_path st ;; visit_all rest (S i) st'
  end.

Definition msg_extracted (n : nat) : str :=
  lit "Extracted camera positions from " ++ str_of_nat n ++ lit " image filenames".

Definition msg_partial (n total : nat) : str :=
  lit "Warning: Could only extract camera positions from " ++ str_of_nat n
    ++ lit " of " ++ str_of_nat total ++ lit " images".

Definition msg_default : str := lit "Using default camera positions for all images".

(** The result of a call: what it returns or raises, and the lines it
    printed, in order. *)
Definition extract_structured_camera_positions (images : list str) (args : Namespace)
  : outcome (option (list position)) * list str :=
  match visit_all images 0 ([], []) with
  | Raise e => (Raise e, [])
  | Return (positions, _) =>
      if (List.length positions =? List.length images)%nat then
        (Return (Some positions), [msg_extracted (List.length positions)])
      else if (0 <? List.length positions)%nat then
        (Return None,
         [msg_partial (List.length positions) (List.length images); msg_default])
      else (Return None, [])
  end.

(** ** The script body: directory scan and image count *)

(** [c.lower()] on a code point below 256: the ASCII capitals and the
    Latin-1 capitals (all of 192..222 but the multiplication sign 215). *)
Definition lower_char (c : ascii) : ascii :=
  let n := nat_of_ascii c in
  if ((65 <=? n) && (n <=? 90) || (192 <=? n) && (n <=? 222) && negb (n =? 215))%nat
  then ascii_of_nat (n + 32) else c.

Definition lower (s : str) : str := map lower_char s.

Fixpoint str_eqb (s t : str) : bool :=
  match s, t with
  | [], [] => true
  | c :: s', d :: t' => Ascii.eqb c d && str_eqb s' t'
  | _, _ => false
  end.

Definition startswith (s pre : str) : bool :=
  str_eqb (firstn (List.length pre) s) pre.

Definition endswith (s suf : str) : bool :=
  (List.length suf <=? List.length s)%nat
  && str_eqb (skipn (List.length s - List.length suf) s) suf.

(** [file.lower().endswith((".png", ".jpg", ".jpeg"))] *)
Definition is_image_file (file : str) : bool :=
  existsb (endswith (lower file)) [lit ".png"; lit ".jpg"; lit ".jpeg"].

(** [os.path.join(a, b)] ([posixpath]) *)
Definition join (a b : str) : str :=
  if startswith b (lit "/") then b
  else if (List.length a =? 0)%nat || endswith a (lit "/") then a ++ b
  else a ++ lit "/" ++ b.

(** The order of [str]: lexicographic on code points. *)
Fixpoint str_leb (s t : str) : bool :=
  match s, t with
  | [], _ => true
  | _ :: _, [] => false
  | c :: s', d :: t' =>
      let m := nat_of_ascii c in
      let n := nat_of_ascii d in
      if (m <? n)%nat then true else if (n <? m)%nat then false else str_leb s' t'
  end.

Fixpoint insert_sorted (x : str) (l : list str) : list str :=
  match l with
  | [] => [x]
  | y :: l' => if str_leb x y then x :: l else y :: insert_sorted x l'
  end.

(** [sorted(l)] on a list of strings. *)
Definition sorted (l : list str) : list str := fold_right insert_sorted [] l.

(** The loop over [sorted(os.listdir(args.image_dir))]; [listing] is what
    [os.listdir] returned. *)
Fixpoint collect_images (dir : str) (files : list str) (image_paths : list str)
  : list str :=
  match files with
  | [] => image_paths
  | file :: rest =>
      collect_images dir rest
        (if is_image_file file then image_paths ++ [join dir file] else image_paths)
  end.

Definition find_images (args : Namespace) (listing : list str) : list str :=
  collect_images (image_dir args) (sorted listing) [].

Definition msg_too_few (n : nat) (dir : str) : str :=
  lit "Found only " ++ str_of_nat n ++ lit " images in " ++ dir
    ++ lit ". Need at least 2 images for multi-view reconstruction.".

Definition msg_found (n : nat) : str :=
  lit "Found " ++ str_of_nat n ++ lit " images for multi-view reconstruction.".

(** The script from the directory scan to the report of the image count:
    the image paths and the camera positions handed to the model, or the
    exception raised, with the lines printed. *)
Definition discover (args : Namespace) (listing : list str)
  : outcome (list str * option (list position)) * list str :=
  let image_paths := find_images args listing in
  if (List.length image_paths <? 2)%nat then
    (Raise (ValueError (msg_too_few (List.length image_paths) (image_dir args))), [])
  else
    let '(camera_positions, out) :=
      if detect_camera_positions args
      then extract_structured_camera_positions image_paths args
      else (Return None, []) in
    match camera_positions with
    | Raise e => (Raise e, out)
    | Return cp => (Return (image_paths, cp), out ++ [msg_found (List.length image_paths)])
    end.

(** ** Remeshing parameters *)

Section Arguments.
(** The builtin [int] on a string: the integer, or the exception. *)
Variable py_int : str -> outcome Z.

Definition check_positive (value : str) : outcome Z :=
  ivalue <- py_int value ;;
  if (ivalue <=? 0)%Z
  then Raise (ArgumentTypeError (value ++ lit " is an invalid positive int value"))
  else Return ivalue.

(** What argparse stores for [--target_count]: the default 2000, an [int],
    is stored as it is; a string of the command line goes through
    [type=check_positive], and a failure of the conversion ends the
    program with status 2. *)
Definition parse_target_count (given : option str) : outcome Z :=
  match given with
  | None => Return 2000%Z
  | Some value =>
      match check_positive value with
      | Return ivalue => Return ivalue
      | Raise _ => Raise (SystemExit 2)
      end
  end.
End Arguments.

(** The builtin [int] on a signed decimal numeral, [[+-]?D+]; every other
    string is a [ValueError] (Python also accepts surrounding whitespace and
    underscores between digits). *)
Definition int_of_str (value : str) : outcome Z :=
  let '(neg, body) :=
    match value with
    | c :: t => if Ascii.eqb c "-" then (true, t)
                else if Ascii.eqb c "+" then (false, t) else (false, value)
    | [] => (false, value)
    end in
  match read_digits body 0%N 0 with
  | (v, S _, []) => Return (if neg then - Z.of_N v else Z.of_N v)%Z
  | _ => Raise (ValueError (lit "invalid literal for int() with base 10: '"
                              ++ value ++ lit "'"))
  end.

Definition getattr {A} (name : string) (field : option A) : outcome A :=
  match field with
  | Some v => Return v
  | None => Raise (AttributeError
                     (lit "'Namespace' object has no attribute '" ++ lit name ++ lit "'"))
  end.

(** The conditional expression that sets [vertex_count]. *)
Definition vertex_count (args : Namespace) : outcome Z :=
  t <- getattr "reduction_count_type" (reduction_count_type args) ;;
  if str_eqb t (lit "keep") then Return (-1)%Z
  else
    t' <- getattr "reduction_count_type" (reduction_count_type args) ;;
    if str_eqb t' (lit "vertex") then getattr "target_count" (target_count args)
    else n <- getattr "target_count" (target_count args) ;; Return (n / 2)%Z.

(** The options of a run with [--detect-camera-positions] on the directory
    [views], no remesher installed. *)
Definition sample_args : Namespace :=
  {| image_dir := lit "views"; detect_camera_positions := true;
     reduction_count_type := None; target_count := None |}.

(** ** What a call of the extractor is measured against *)

(** The base filename of [p] matches [position_pattern]. *)
Definition matched (p : str) : bool :=
  match re_match position_pattern (basename p) with
  | Some _ => true
  | None => false
  end.

(** [pos] is the triple read from the three numeric groups of the base
    filename of [p]. *)
Definition parsed_from (p : str) (pos : position) : Prop :=
  exists m x y z,
    re_match position_pattern (basename p) = Some m
    /\ float_group m 1 = Return x /\ float_group m 2 = Return y
    /\ float_group m 3 = Return z
    /\ pos = [x; y; z].

(** ** Shapes of file names

    The languages of the pieces of [position_pattern], as tests on
    strings, for the statements below. *)

Fixpoint drop_digits (s : str) : str :=
  match s with
  | c :: s' => if is_digit c then drop_digits s' else s
  | [] => []
  end.

(** The strings of [\d+\.?\d*]: digits, and then nothing or a dot and
    maybe digits. *)
Definition is_unsigned (s : str) : bool :=
  match s with
  | c :: _ =>
      is_digit c &&
      match drop_digits s with
      | [] => true
      | d :: frac => Ascii.eqb d "." && forallb is_digit frac
      end
  | [] => false
  end.

(** The strings of [-?\d+\.?\d*]. *)
Definition is_number (s : str) : bool :=
  match s with
  | c :: t => if Ascii.eqb c "-" then is_unsigned t else is_unsigned s
  | [] => false
  end.

(** The strings of [png|jpg|jpeg]. *)
Definition is_extension (e : str) : bool :=
  existsb (str_eqb e) [lit "png"; lit "jpg"; lit "jpeg"].

(** The strings of [.*]. *)
Definition one_line (s : str) : bool := forallb (accepts Dot) s.

Definition has_char (x : ascii) (s : str) : bool := existsb (Ascii.eqb x) s.

(** What follows the last [x] of [s], when [s] has an [x]. *)
Fixpoint after_last (x : ascii) (s : str) : option str :=
  match s with
  | [] => None
  | c :: s' =>
      match after_last x s' with
      | Some t => Some t
      | None => if Ascii.eqb c x then Some s' else None
      end
  end.

(** [s] ends in an underscore and a number: one more numeric group. *)
Definition ends_with_number_group (s : str) : bool :=
  match after_last "_" s with
  | Some t => is_number t
  | None => false
  end.


(** The decimal [m / 10^k], negated when [neg], is the value of the
    binary64 number [X]: of a zero of that sign, or of [mx * 2^ex]. *)
Definition exact_value (neg : bool) (m : N) (k : nat) (X : pyfloat) : bool :=
  match X with
  | S754_zero s => Bool.eqb s neg && N.eqb m 0
  | S754_finite s mx ex =>
      Bool.eqb s neg
      && (Z.of_N m * 2 ^ Z.max 0 (- ex) =? Zpos mx * 2 ^ Z.max 0 ex * Zpos (pow10 k))%Z
  | _ => false
  end.

(** [s] is an exact decimal rendering of the binary64 number [X]. *)
Definition renders (X : pyfloat) (s : str) : bool :=
  valid_binary prec emax X
  && match decimal_of_str s with
     | Some (neg, m, k) => exact_value neg m k X
     | None => false
     end.

(** [pre_g1_g2_g3.e] followed by [tail]. *)
Definition position_name (pre g1 g2 g3 e tail : str) : str :=
  pre ++ "_" :: g1 ++ "_" :: g2 ++ "_" :: g3 ++ "." :: e ++ tail.

(** The groups of a match of [position_pattern]. *)
Definition position_groups (g1 g2 g3 e : str) : groups :=
  [(4, e); (3, g3); (2, g2); (1, g1)].

(** A base filename with two numeric groups in front of its extension,
    and no third one in front of them. *)
Definition two_group_name (f : str) : Prop :=
  exists pre n1 n2 e,
    f = pre ++ "_" :: n1 ++ "_" :: n2 ++ "." :: e
    /\ ends_with_number_group pre = false
    /\ is_number n1 = true /\ is_number n2 = true
    /\ is_extension e = true.

(** A base filename with three numeric groups and an extension, in any
    letter case, that is none of png, jpg and jpeg. *)
Definition unsupported_extension_name (f : str) : Prop :=
  exists pre g1 g2 g3 x,
    f = pre ++ "_" :: g1 ++ "_" :: g2 ++ "_" :: g3 ++ "." :: x
    /\ is_number g1 = true /\ is_number g2 = true /\ is_number g3 = true
    /\ has_char "." x = false /\ has_char newline x = false
    /\ is_extension (lower x) = false.

(** ** The script body: device, remeshing options, saved inputs *)

(** [needle in hay] on strings: [needle] occurs in [hay]. *)
Fixpoint contains (hay needle : str) : bool :=
  startswith hay needle
  || match hay with
     | [] => false
     | _ :: hay' => contains hay' needle
     end.

Definition devices : list str := [lit "cuda"; lit "mps"; lit "cpu"].

(** [if not any(args.device in device for device in devices): raise ...] *)
Definition check_device (device : str) : outcome unit :=
  if negb (existsb (fun d => contains d device) devices)
  then Raise (ValueError (lit "Invalid device. Use cuda, mps or cpu"))
  else Return tt.

(** The device the model runs on; the two flags are what
    [torch.cuda.is_available()] and [torch.backends.mps.is_available()]
    return. *)
Definition select_device (device : str) (cuda_available mps_available : bool) : str :=
  if negb (cuda_available || mps_available) then lit "cpu" else device.

(** ["cuda" in device]: the reconstruction runs under [torch.autocast]. *)
Definition uses_autocast (device : str) : bool := contains device (lit "cuda").

(** The script from the device check to the choice of the context of the
    reconstruction. *)
Definition device_setup (device : str) (cuda_available mps_available : bool)
  : outcome (str * bool) :=
  _ <- check_device device ;;
  let device' := select_device device cuda_available mps_available in
  Return (device', uses_autocast device').

(** An option with [choices] and a [default]: a value of the command line
    outside the choices ends the program with status 2; the default is not
    checked. *)
Definition parse_choice (choices : list str) (default : str) (given : option str)
  : outcome str :=
  match given with
  | None => Return default
  | Some v => if existsb (str_eqb v) choices then Return v else Raise (SystemExit 2)
  end.

(** The two options that exist only with a remesher.  Without one they are
    not added to the parser: giving them on the command line is an
    unrecognized argument, and the namespace has neither attribute. *)
Definition parse_reduction (py_int : str -> outcome Z) (triangle quad : bool)
    (given_type given_count : option str) : outcome (option str * option Z) :=
  if triangle || quad then
    t <- parse_choice [lit "keep"; lit "vertex"; lit "faces"] (lit "keep") given_type ;;
    n <- parse_target_count py_int given_count ;;
    Return (Some t, Some n)
  else
    match given_type, given_count with
    | None, None => Return (None, None)
    | _, _ => Raise (SystemExit 2)
    end.

(** The namespace after parsing, for the options the embedding reads. *)
Definition parse_args (py_int : str -> outcome Z) (triangle quad : bool)
    (dir : str) (detect : bool) (given_type given_count : option str)
  : outcome Namespace :=
  r <- parse_reduction py_int triangle quad given_type given_count ;;
  Return {| image_dir := dir; detect_camera_positions := detect;
            reduction_count_type := fst r; target_count := snd r |}.

(** [s.rjust(width, "0")] for a string of digits: what [{i:03d}] does to
    the decimal of a non-negative [i]. *)
Definition zero_pad (width : nat) (s : str) : str :=
  repeat "0" (width - List.length s) ++ s.

(** [f"input_{i:03d}.png"] *)
Definition input_name (i : nat) : str :=
  lit "input_" ++ zero_pad 3 (str_of_nat i) ++ lit ".png".

(** [os.path.join(output_dir, "inputs", f"input_{i:03d}.png")] *)
Definition input_path (output_dir : str) (i : nat) : str :=
  join (join output_dir (lit "inputs")) (input_name i).

(** The files the loop over [enumerate(images)] writes, for [n] images. *)
Definition saved_inputs (output_dir : str) (n : nat) : list str :=
  map (input_path output_dir) (seq 0 n).

(** The value of the digits at the start of a string. *)
Definition leading_number (s : str) : nat :=
  N.to_nat (fst (fst (read_digits s 0%N 0))).

(** The sign bit of a binary64 number; NaN has none. *)
Definition sign_of (x : pyfloat) : option bool :=
  match x with
  | S754_zero s | S754_infinity s | S754_finite s _ _ => Some s
  | S754_nan => None
  end.

(** The order of [sorted], as a relation. *)
Definition str_le (a b : str) : Prop := str_leb a b = true.

(** The indices, counted from [i], of the paths that match. *)
Fixpoint matching_indices (images : list str) (i : nat) : list nat :=
  match images with
  | [] => []
  | p :: rest =>
      if matched p then i :: matching_indices rest (S i) else matching_indices rest (S i)
  end.

(** ** Decimal numerals and binary64 numbers

    What the conversion of a decimal is measured against.  Nothing here is
    shared with [py_float]: a numeral is a sequence of digits of the
    Standard Library, read with its [Nat.of_uint], and numbers are compared
    in exact integer arithmetic. *)

(** A decimal numeral as it is written: an optional minus, the digits
    before the dot and the digits after it (no dot when there are none
    after it); no exponent. *)
Record numeral : Type := {
  dec_neg : bool;
  dec_int : Decimal.uint;
  dec_frac : Decimal.uint
}.

Definition digits_of (u : Decimal.uint) : str := lit (NilEmpty.string_of_uint u).

(** The string of a numeral, as it stands in a file name. *)
Definition render (d : numeral) : str :=
  (if dec_neg d then ["-"] else [])
  ++ digits_of (dec_int d)
  ++ match dec_frac d with
     | Decimal.Nil => []
     | f => "." :: digits_of f
     end.

(** The value of [d] is the fraction [numerator d / denominator d]. *)
Definition denominator (d : numeral) : Z :=
  (10 ^ Z.of_nat (Decimal.nb_digits (dec_frac d)))%Z.

Definition numerator (d : numeral) : Z :=
  ((if dec_neg d then -1 else 1)
   * (Z.of_nat (Nat.of_uint (dec_int d)) * denominator d
      + Z.of_nat (Nat.of_uint (dec_frac d))))%Z.

(** A binary64 number: a zero, or a finite number in canonical form. *)
Definition is_binary64 (X : pyfloat) : bool :=
  match X with
  | S754_zero _ => true
  | S754_finite _ m e => bounded prec emax m e
  | _ => false
  end.

(** The value of a binary64 number in units of [2^-1074], the least
    positive binary64 number: an integer. *)
Definition units (X : pyfloat) : Z :=
  match X with
  | S754_finite s m e => ((if s then -1 else 1) * (Zpos m * 2 ^ (e + 1074)))%Z
  | _ => 0%Z
  end.

(** The unit in the last place of a binary64 number, in the same units. *)
Definition ulp (X : pyfloat) : Z :=
  match X with
  | S754_finite _ _ e => (2 ^ (e + 1074))%Z
  | _ => 1%Z
  end.

(** The distance [|X - d|] between a binary64 number and a numeral, times
    [denominator d] and [2^1074]. *)
Definition error (d : numeral) (X : pyfloat) : Z :=
  Z.abs (units X * denominator d - numerator d * 2 ^ 1074)%Z.

(** No binary64 number is nearer to [d] than [x]. *)
Definition nearest (d : numeral) (x : pyfloat) : Prop :=
  is_binary64 x = true
  /\ forall Y, is_binary64 Y = true -> (error d x <= error d Y)%Z.

(** [|d|] is [2^1024 - 2^970] at least: half an ulp above the largest
    binary64 number, from where rounding to nearest gives an infinity. *)
Definition overflows (d : numeral) : Prop :=
  ((2 ^ 1024 - 2 ^ 970) * denominator d <= Z.abs (numerator d))%Z.

(** [x] is [d] rounded to binary64: it has the sign of [d]; it is an
    infinity only when [d] overflows; otherwise it is a binary64 number
    nearest to [d], hence within half a unit in its last place of [d]. *)
Definition rounded (d : numeral) (x : pyfloat) : Prop :=
  sign_of x = Some (dec_neg d)
  /\ match x with
     | S754_nan => False
     | S754_infinity _ => overflows d
     | _ => nearest d x /\ (2 * error d x <= ulp x * denominator d)%Z
     end.

(** [d] is a rendering of the binary64 number [X] that identifies it, as
    [repr] gives one: [X] has the sign of [d] and is strictly nearer to [d]
    than every other binary64 number, and [d] does not overflow. *)
Definition faithful (d : numeral) (X : pyfloat) : Prop :=
  is_binary64 X = true
  /\ sign_of X = Some (dec_neg d)
  /\ ~ overflows d
  /\ forall Y, is_binary64 Y = true -> units Y <> units X ->
               (error d X < error d Y)%Z.

(** What reading [d] back as [x] keeps of an original number: [x] is [d]
    rounded; it is the original [X] itself when [d] is a faithful rendering
    of [X]; and for any binary64 number [X] rendered as [d], however
    coarsely, a finite [x] is within twice [|X - d|] of [X]. *)
Definition round_trip (d : numeral) (x : pyfloat) : Prop :=
  rounded d x
  /\ (forall X, faithful d X -> x = X)
  /\ (forall X, is_binary64 X = true -> is_binary64 x = true ->
        (Z.abs (units x - units X) * denominator d <= 2 * error d X)%Z).

(** ** Rounding: what a shifted mantissa records

    The record [mrs] locates the fraction [A / B]: its mantissa is the
    integer part, the round bit says that the rest is a half at least, the
    sticky bit that the rest is neither nothing nor a half. *)
Definition located (A B : Z) (mrs : shr_record) : Prop :=
  (0 < B /\ 0 <= shr_m mrs
   /\ 0 <= A - shr_m mrs * B < B
   /\ (shr_r mrs = true <-> B <= 2 * (A - shr_m mrs * B))
   /\ (shr_s mrs = true <->
       A - shr_m mrs * B <> 0 /\ 2 * (A - shr_m mrs * B) <> B))%Z.

(** ** Tactics *)

Ltac inv H := inversion H; subst; clear H.

(** Invert every hypothesis [matches r ...] whose [r] starts with a
    constructor. *)
Ltac inv_matches :=
  repeat match goal with
  | H : matches (One _) _ _ _ _ |- _ => inv H
  | H : matches (Star _) _ _ _ _ |- _ => inv H
  | H : matches (Plus _) _ _ _ _ |- _ => inv H
  | H : matches (Opt _) _ _ _ _ |- _ => inv H
  | H : matches (Cat _ _) _ _ _ _ |- _ => inv H
  | H : matches (Alt _ _) _ _ _ _ |- _ => inv H
  | H : matches (Group _ _) _ _ _ _ |- _ => inv H
  | H : matches Dollar _ _ _ _ |- _ => inv H
  | H : accepts (Char _) _ = true |- _ => simpl in H; apply Ascii.eqb_eq in H; subst
  end.

(** * Theory of the matcher *)

Module ReFacts.

#[local] Hint Constructors matches : core.

Lemma orelse_some A (x y : option A) v :
  orelse x y = Some v -> x = Some v \/ y = Some v.
Proof. destruct x; simpl; auto. Qed.

Lemma orelse_defined A (x y : option A) :
  (exists v, x = Some v) \/ (exists v, y = Some v) -> exists v, orelse x y = Some v.
Proof.
  destruct x; simpl; intros [[v H] | [v H]]; eauto; discriminate.
Qed.

Lemma consumed_app (s1 s2 : str) : consumed (s1 ++ s2) s2 = s1.
Proof.
  unfold consumed. rewrite length_app.
  replace (List.length s1 + List.length s2 - List.length s2) with (List.length s1 + 0) by lia.
  rewrite firstn_app_2. simpl. apply app_nil_r.
Qed.

Section Soundness.
Variable R : Type.

Lemma star_sound a s (k : str -> option R) v :
  star a s k = Some v ->
  exists s1 s2, s = s1 ++ s2 /\ forallb (accepts a) s1 = true /\ k s2 = Some v.
Proof.
  induction s as [|c s IH]; simpl; intros H.
  - exists [], []. auto.
  - destruct (accepts a c) eqn:Hc.
    + apply orelse_some in H. destruct H as [H | H].
      * destruct (IH H) as (s1 & s2 & -> & Hall & Hk).
        exists (c :: s1), s2. simpl. rewrite Hc, Hall. auto.
      * exists [], (c :: s). auto.
    + exists [], (c :: s). auto.
Qed.

Lemma star_complete a s1 s2 (k : str -> option R) v :
  forallb (accepts a) s1 = true -> k s2 = Some v ->
  exists v', star a (s1 ++ s2) k = Some v'.
Proof.
  induction s1 as [|c s1 IH]; simpl; intros Hall Hk.
  - destruct s2 as [|c s2]; simpl; eauto.
    destruct (accepts a c); eauto. apply orelse_defined. eauto.
  - apply andb_true_iff in Hall. destruct Hall as [Hc Hall]. rewrite Hc.
    apply orelse_defined. left. auto.
Qed.

(** Every result of [run] comes from a path that [matches] describes. *)
Lemma run_sound r : forall s g (k : str -> groups -> option R) v,
  run r s g k = Some v ->
  exists s1 s2 g', s = s1 ++ s2 /\ matches r s1 s2 g g' /\ k s2 g' = Some v.
Proof.
  induction r as [a|a|a|a|r1 IH1 r2 IH2|r1 IH1 r2 IH2|n r IH|]; simpl; intros s g k v H.
  - destruct s as [|c s]; [discriminate|].
    destruct (accepts a c) eqn:Hc; [|discriminate].
    exists [c], s, g. auto.
  - apply star_sound in H. destruct H as (s1 & s2 & -> & Hall & Hk).
    exists s1, s2, g. auto.
  - destruct s as [|c s]; [discriminate|].
    destruct (accepts a c) eqn:Hc; [|discriminate].
    apply star_sound in H. destruct H as (s1 & s2 & -> & Hall & Hk).
    exists (c :: s1), s2, g. auto.
  - destruct s as [|c s].
    + exists [], [], g. auto.
    + destruct (accepts a c) eqn:Hc.
      * apply orelse_some in H. destruct H as [H | H].
        -- exists [c], s, g. auto.
        -- exists [], (c :: s), g. auto.
      * exists [], (c :: s), g. auto.
  - apply IH1 in H. destruct H as (s1 & s2 & g1 & -> & M1 & H).
    apply IH2 in H. destruct H as (s3 & s4 & g2 & -> & M2 & H).
    exists (s1 ++ s3), s4, g2. rewrite app_assoc. eauto.
  - apply orelse_some in H. destruct H as [H | H].
    + apply IH1 in H. destruct H as (s1 & s2 & g' & -> & M & H).
      exists s1, s2, g'. auto.
    + apply IH2 in H. destruct H as (s1 & s2 & g' & -> & M & H).
      exists s1, s2, g'. auto.
  - apply IH in H. destruct H as (s1 & s2 & g' & -> & M & H).
    rewrite consumed_app in H. exists s1, s2, ((n, s1) :: g'). auto.
  - destruct s as [|c [|d s]]; try discriminate.
    + exists [], [], g. auto.
    + destruct (Ascii.eqb c newline) eqn:Hc; [|discriminate].
      apply Ascii.eqb_eq in Hc. subst c. exists [], [newline], g. auto.
Qed.

(** Whenever some path through [r] and then [k] succeeds, [run] returns
    a result: that of the first such path in the order of [re]. *)
Lemma run_complete r s1 s2 g g' :
  matches r s1 s2 g g' ->
  forall (k : str -> groups -> option R) v, k s2 g' = Some v ->
  exists v', run r (s1 ++ s2) g k = Some v'.
Proof.
  induction 1; simpl; intros k v Hk.
  - rewrite H. eauto.
  - eapply star_complete; eauto.
  - rewrite H. eapply star_complete; eauto.
  - rewrite H. apply orelse_defined. eauto.
  - destruct rest as [|c rest]; eauto.
    destruct (accepts a c); eauto. apply orelse_defined. eauto.
  - destruct (IHmatches2 k v Hk) as [v2 H2].
    rewrite <- app_assoc.
    eapply IHmatches1 with (k := fun s' g' => run r2 s' g' k). eauto.
  - apply orelse_defined. left. eauto.
  - apply orelse_defined. right. eauto.
  - eapply IHmatches with (k := fun s' g'0 => k s' ((n, consumed (s ++ rest) s') :: g'0)).
    rewrite consumed_app. eauto.
  - destruct H as [-> | ->]; simpl; eauto.
Qed.
End Soundness.

(** [re.match] succeeds exactly when the pattern matches a prefix, and its
    groups are those of a matching path. *)
Lemma re_match_sound r s m :
  re_match r s = Some m -> exists s1 s2, s = s1 ++ s2 /\ matches r s1 s2 [] m.
Proof.
  unfold re_match. intros H. apply run_sound in H.
  destruct H as (s1 & s2 & g' & -> & M & E). injection E as <-. eauto.
Qed.

Lemma re_match_complete r s1 s2 m :
  matches r s1 s2 [] m -> exists m', re_match r (s1 ++ s2) = Some m'.
Proof.
  intros M. unfold re_match.
  eapply run_complete with (k := fun _ g => Some g); eauto.
Qed.

End ReFacts.

(** * The language of [position_pattern] *)

Import ReFacts.

Unset Implicit Arguments.

Lemma str_eqb_eq s t : str_eqb s t = true <-> s = t.
Proof.
  revert t. induction s as [|c s IH]; destruct t as [|d t]; simpl; split;
    try congruence; try discriminate.
  - intros H. apply andb_true_iff in H. destruct H as [H1 H2].
    apply Ascii.eqb_eq in H1. apply IH in H2. congruence.
  - intros H. injection H as -> ->. rewrite Ascii.eqb_refl. simpl. apply IH. reflexivity.
Qed.

Lemma drop_digits_app a b :
  forallb is_digit a = true -> drop_digits (a ++ b) = drop_digits b.
Proof.
  induction a as [|c a IH]; simpl; auto.
  intros H. apply andb_true_iff in H. destruct H as [-> H]. auto.
Qed.

Lemma drop_digits_all a : forallb is_digit a = true -> drop_digits a = [].
Proof.
  intros H. rewrite <- (app_nil_r a). rewrite drop_digits_app; auto.
Qed.

Lemma drop_digits_split s :
  exists ds, s = ds ++ drop_digits s /\ forallb is_digit ds = true.
Proof.
  induction s as [|c s (ds & E & H)]; simpl.
  - exists []. auto.
  - destruct (is_digit c) eqn:Hc.
    + exists (c :: ds). simpl. rewrite Hc, H. split; [f_equal; exact E | reflexivity].
    + exists []. auto.
Qed.

Lemma digit_not_minus c : is_digit c = true -> Ascii.eqb c "-" = false.
Proof.
  intros H. destruct (Ascii.eqb c "-") eqn:E; auto.
  apply Ascii.eqb_eq in E. subst. discriminate.
Qed.

Lemma drop_digits_length s : List.length (drop_digits s) <= List.length s.
Proof.
  induction s as [|c s IH]; simpl; [lia|]. destruct (is_digit c); simpl; lia.
Qed.

Lemma is_unsigned_dot c ds fs :
  is_digit c = true -> forallb is_digit ds = true -> forallb is_digit fs = true ->
  is_unsigned ((c :: ds) ++ "." :: fs) = true.
Proof.
  intros Hc Hds Hfs. unfold is_unsigned.
  rewrite drop_digits_app by (simpl; rewrite Hc; exact Hds).
  simpl. rewrite Hc, Hfs. reflexivity.
Qed.

Lemma is_unsigned_digits c ds fs :
  is_digit c = true -> forallb is_digit ds = true -> forallb is_digit fs = true ->
  is_unsigned ((c :: ds) ++ fs) = true.
Proof.
  intros Hc Hds Hfs. unfold is_unsigned.
  rewrite drop_digits_app by (simpl; rewrite Hc; exact Hds).
  rewrite drop_digits_all by exact Hfs.
  simpl. rewrite Hc. reflexivity.
Qed.

(** A string of [is_unsigned], cut where [\d+], [\.?] and [\d*] meet. *)
Lemma is_unsigned_split s :
  is_unsigned s = true ->
  exists c ds dot fs,
    s = (c :: ds) ++ dot ++ fs /\ is_digit c = true /\ forallb is_digit ds = true
    /\ (dot = [] \/ dot = ["."]) /\ forallb is_digit fs = true.
Proof.
  unfold is_unsigned. destruct s as [|c s]; [discriminate|].
  intros H. apply andb_true_iff in H. destruct H as [Hc H].
  destruct (drop_digits_split (c :: s)) as (ds & E & Hds).
  destruct ds as [|c' ds].
  - simpl in E. pose proof (drop_digits_length s) as L.
    rewrite Hc in E. apply (f_equal (@List.length ascii)) in E. simpl in E. lia.
  - simpl in Hds. apply andb_true_iff in Hds. destruct Hds as [Hc' Hds].
    assert (c' = c) by (simpl in E; congruence). subst c'.
    destruct (drop_digits (c :: s)) as [|d frac].
    + exists c, ds, [], []. rewrite E. repeat split; auto.
    + apply andb_true_iff in H. destruct H as [Hd Hf].
      apply Ascii.eqb_eq in Hd. subst d.
      exists c, ds, ["."], frac. rewrite E. repeat split; auto.
Qed.

Lemma unsigned_matches s rest g g' :
  matches (Cat (Plus Digit) (Cat (Opt (Char ".")) (Star Digit))) s rest g g'
  <-> is_unsigned s = true /\ g' = g.
Proof.
  split.
  - intros H. inv_matches; split; auto.
    + apply is_unsigned_dot; assumption.
    + apply is_unsigned_digits; assumption.
  - intros [H ->].
    destruct (is_unsigned_split _ H) as (c & ds & dot & fs & -> & Hc & Hds & Hdot & Hfs).
    apply M_Cat with (g1 := g); [constructor; assumption|].
    apply M_Cat with (g1 := g); [|constructor; assumption].
    destruct Hdot as [-> | ->]; constructor. reflexivity.
Qed.

(** The strings [number_re] consumes are those of [is_number], and no
    group is bound on the way. *)
Lemma number_matches s rest g g' :
  matches number_re s rest g g' <-> is_number s = true /\ g' = g.
Proof.
  unfold number_re. split.
  - intros H. inv H.
    match goal with
    | M : matches (Cat (Plus _) _) _ _ _ _ |- _ =>
        apply unsigned_matches in M; destruct M as [Hu ->]
    end.
    assert (Hn : is_number s2 = true).
    { destruct s2 as [|c t]; [discriminate|].
      pose proof Hu as Hc. unfold is_unsigned in Hc. apply andb_true_iff in Hc.
      simpl. rewrite (digit_not_minus _ (proj1 Hc)). exact Hu. }
    inv_matches; split; auto.
  - intros [H ->]. destruct s as [|c t]; [discriminate|]. simpl in H.
    destruct (Ascii.eqb c "-") eqn:Hm.
    + apply Ascii.eqb_eq in Hm. subst c.
      change ("-" :: t) with (["-"] ++ t).
      apply M_Cat with (g1 := g); [apply M_Opt_one; reflexivity|].
      apply unsigned_matches. auto.
    + change (c :: t) with ([] ++ c :: t).
      apply M_Cat with (g1 := g); [apply M_Opt_none|].
      apply unsigned_matches. auto.
Qed.

Lemma is_extension_cases e :
  is_extension e = true <-> e = lit "png" \/ e = lit "jpg" \/ e = lit "jpeg".
Proof.
  unfold is_extension. simpl. rewrite !orb_true_iff, !str_eqb_eq.
  intuition discriminate.
Qed.

Lemma extension_matches s rest g g' :
  matches extension_re s rest g g' <-> is_extension s = true /\ g' = g.
Proof.
  split.
  - unfold extension_re. intros H. inv_matches; split; reflexivity.
  - intros [H ->]. apply is_extension_cases in H. unfold extension_re.
    destruct H as [-> | [-> | ->]].
    + apply M_Alt_l.
      apply (M_Cat (s1 := ["p"]) (s2 := ["n"; "g"]) (g1 := g)); [constructor; reflexivity|].
      apply (M_Cat (s1 := ["n"]) (s2 := ["g"]) (g1 := g)); constructor; reflexivity.
    + apply M_Alt_r, M_Alt_l.
      apply (M_Cat (s1 := ["j"]) (s2 := ["p"; "g"]) (g1 := g)); [constructor; reflexivity|].
      apply (M_Cat (s1 := ["p"]) (s2 := ["g"]) (g1 := g)); constructor; reflexivity.
    + apply M_Alt_r, M_Alt_r.
      apply (M_Cat (s1 := ["j"]) (s2 := ["p"; "e"; "g"]) (g1 := g)); [constructor; reflexivity|].
      apply (M_Cat (s1 := ["p"]) (s2 := ["e"; "g"]) (g1 := g)); [constructor; reflexivity|].
      apply (M_Cat (s1 := ["e"]) (s2 := ["g"]) (g1 := g)); constructor; reflexivity.
Qed.

(** Every path through [position_pattern] reads a name of the expected
    shape and binds the four groups once. *)
Lemma pattern_matches_elim s1 s2 m :
  matches position_pattern s1 s2 [] m ->
  exists pre g1 g2 g3 e,
    s1 ++ s2 = position_name pre g1 g2 g3 e s2
    /\ one_line pre = true
    /\ is_number g1 = true /\ is_number g2 = true /\ is_number g3 = true
    /\ is_extension e = true
    /\ (s2 = [] \/ s2 = [newline])
    /\ m = position_groups g1 g2 g3 e.
Proof.
  unfold position_pattern. intros H. inv_matches.
  repeat match goal with
  | M : matches number_re _ _ _ _ |- _ => apply number_matches in M; destruct M as [? ->]
  | M : matches extension_re _ _ _ _ |- _ => apply extension_matches in M; destruct M as [? ->]
  end.
  exists s0, s1, s3, s4, s5. unfold position_name, position_groups, one_line.
  rewrite app_nil_r. repeat rewrite <- app_assoc. simpl. repeat split; auto.
Qed.

Lemma pattern_matches_intro pre g1 g2 g3 e tail :
  one_line pre = true ->
  is_number g1 = true -> is_number g2 = true -> is_number g3 = true ->
  is_extension e = true ->
  tail = [] \/ tail = [newline] ->
  exists s1, position_name pre g1 g2 g3 e tail = s1 ++ tail
    /\ matches position_pattern s1 tail [] (position_groups g1 g2 g3 e).
Proof.
  intros Hpre H1 H2 H3 He Ht.
  exists (pre ++ ["_"] ++ g1 ++ ["_"] ++ g2 ++ ["_"] ++ g3 ++ ["."] ++ e ++ []).
  split.
  - unfold position_name. rewrite app_nil_r. repeat rewrite <- app_assoc. reflexivity.
  - unfold position_pattern, position_groups.
    apply M_Cat with (g1 := []); [constructor; exact Hpre|].
    apply M_Cat with (g1 := []); [constructor; reflexivity|].
    apply M_Cat with (g1 := [(1, g1)]);
      [constructor; apply number_matches; auto|].
    apply M_Cat with (g1 := [(1, g1)]); [constructor; reflexivity|].
    apply M_Cat with (g1 := [(2, g2); (1, g1)]);
      [constructor; apply number_matches; auto|].
    apply M_Cat with (g1 := [(2, g2); (1, g1)]); [constructor; reflexivity|].
    apply M_Cat with (g1 := [(3, g3); (2, g2); (1, g1)]);
      [constructor; apply number_matches; auto|].
    apply M_Cat with (g1 := [(3, g3); (2, g2); (1, g1)]); [constructor; reflexivity|].
    apply M_Cat with (g1 := [(4, e); (3, g3); (2, g2); (1, g1)]);
      [constructor; apply extension_matches; auto|].
    constructor. exact Ht.
Qed.

(** *** A name has one reading *)

Lemma split_last_unique (x : ascii) a b a' b' :
  ~ In x b -> ~ In x b' -> a ++ x :: b = a' ++ x :: b' -> a = a' /\ b = b'.
Proof.
  revert a'. induction a as [|c a IH]; intros [|c' a'] Hb Hb' E; simpl in E.
  - injection E as ->. auto.
  - injection E as <- ->. exfalso. apply Hb. apply in_or_app. right. left. reflexivity.
  - injection E as -> <-. exfalso. apply Hb'. apply in_or_app. right. left. reflexivity.
  - injection E as -> E. destruct (IH a' Hb Hb' E) as [-> ->]. auto.
Qed.

Lemma is_number_chars s c :
  is_number s = true -> In c s -> c = "-" \/ c = "." \/ is_digit c = true.
Proof.
  assert (D : forall l, forallb is_digit l = true -> In c l -> is_digit c = true).
  { intros l Hl Hin. rewrite forallb_forall in Hl. auto. }
  assert (U : forall u, is_unsigned u = true -> In c u ->
                        c = "-" \/ c = "." \/ is_digit c = true).
  { intros u Hu Hin.
    destruct (is_unsigned_split _ Hu) as (d & ds & dot & fs & -> & Hd & Hds & Hdot & Hfs).
    apply in_app_or in Hin. destruct Hin as [Hin | Hin].
    - right. right. apply (D (d :: ds)); [simpl; rewrite Hd; exact Hds | exact Hin].
    - apply in_app_or in Hin. destruct Hin as [Hin | Hin]; [|eauto].
      destruct Hdot as [-> | ->]; [contradiction|].
      destruct Hin as [<- | []]. auto. }
  destruct s as [|d t]; [discriminate|]. simpl.
  destruct (Ascii.eqb d "-") eqn:Hm; intros H Hin.
  - apply Ascii.eqb_eq in Hm. subst d.
    destruct Hin as [<- | Hin]; [auto | apply (U t); auto].
  - apply U with (u := d :: t); auto.
Qed.

Lemma number_no_underscore s : is_number s = true -> ~ In "_" s.
Proof.
  intros H Hin. destruct (is_number_chars _ _ H Hin) as [E | [E | E]]; discriminate.
Qed.

Lemma extension_no_underscore e : is_extension e = true -> ~ In "_" e.
Proof.
  intros H Hin. apply is_extension_cases in H.
  destruct H as [-> | [-> | ->]]; simpl in Hin; intuition discriminate.
Qed.

Lemma extension_no_dot e : is_extension e = true -> ~ In "." e.
Proof.
  intros H Hin. apply is_extension_cases in H.
  destruct H as [-> | [-> | ->]]; simpl in Hin; intuition discriminate.
Qed.

Lemma extension_tail_unique e tail e' tail' :
  is_extension e = true -> is_extension e' = true ->
  tail = [] \/ tail = [newline] -> tail' = [] \/ tail' = [newline] ->
  e ++ tail = e' ++ tail' -> e = e' /\ tail = tail'.
Proof.
  intros He He' Ht Ht' E.
  apply is_extension_cases in He. apply is_extension_cases in He'.
  destruct He as [-> | [-> | ->]], He' as [-> | [-> | ->]],
    Ht as [-> | ->], Ht' as [-> | ->]; simpl in E; try discriminate; auto.
Qed.

Lemma position_name_unique pre g1 g2 g3 e tail pre' g1' g2' g3' e' tail' :
  is_number g1 = true -> is_number g2 = true -> is_number g3 = true ->
  is_extension e = true -> tail = [] \/ tail = [newline] ->
  is_number g1' = true -> is_number g2' = true -> is_number g3' = true ->
  is_extension e' = true -> tail' = [] \/ tail' = [newline] ->
  position_name pre g1 g2 g3 e tail = position_name pre' g1' g2' g3' e' tail' ->
  pre = pre' /\ g1 = g1' /\ g2 = g2' /\ g3 = g3' /\ e = e' /\ tail = tail'.
Proof.
  intros H1 H2 H3 He Ht H1' H2' H3' He' Ht' E. unfold position_name in E.
  assert (T : forall g x t, is_number g = true -> is_extension x = true ->
              t = [] \/ t = [newline] -> ~ In "_" (g ++ "." :: x ++ t)).
  { intros g x t Hg Hx Hnl Hin. apply in_app_or in Hin. destruct Hin as [Hin | Hin].
    - exact (number_no_underscore _ Hg Hin).
    - destruct Hin as [Hin | Hin]; [discriminate|].
      apply in_app_or in Hin. destruct Hin as [Hin | Hin].
      + exact (extension_no_underscore _ Hx Hin).
      + destruct Hnl as [-> | ->]; simpl in Hin; intuition discriminate. }
  assert (D : forall x t, is_extension x = true ->
              t = [] \/ t = [newline] -> ~ In "." (x ++ t)).
  { intros x t Hx Hnl Hin. apply in_app_or in Hin. destruct Hin as [Hin | Hin].
    - exact (extension_no_dot _ Hx Hin).
    - destruct Hnl as [-> | ->]; simpl in Hin; intuition discriminate. }
  change (pre ++ "_" :: g1 ++ "_" :: g2 ++ "_" :: g3 ++ "." :: e ++ tail)
    with (pre ++ ("_" :: g1) ++ ("_" :: g2) ++ "_" :: g3 ++ "." :: e ++ tail) in E.
  change (pre' ++ "_" :: g1' ++ "_" :: g2' ++ "_" :: g3' ++ "." :: e' ++ tail')
    with (pre' ++ ("_" :: g1') ++ ("_" :: g2') ++ "_" :: g3' ++ "." :: e' ++ tail') in E.
  rewrite !app_assoc in E.
  apply split_last_unique in E; [|apply T; assumption|apply T; assumption].
  destruct E as [E E3].
  apply split_last_unique in E3; [|apply D; assumption|apply D; assumption].
  destruct E3 as [-> E3].
  destruct (extension_tail_unique _ _ _ _ He He' Ht Ht' E3) as [-> ->].
  rewrite <- !app_assoc in E. simpl in E.
  change (pre ++ "_" :: g1 ++ "_" :: g2) with (pre ++ ("_" :: g1) ++ "_" :: g2) in E.
  change (pre' ++ "_" :: g1' ++ "_" :: g2') with (pre' ++ ("_" :: g1') ++ "_" :: g2') in E.
  rewrite !app_assoc in E.
  apply split_last_unique in E; [|apply number_no_underscore; assumption..].
  destruct E as [E ->].
  apply split_last_unique in E; [|apply number_no_underscore; assumption..].
  destruct E as [-> ->]. repeat split; reflexivity.
Qed.

(** *** [re.match] on [position_pattern] *)

(** A successful match reads a name of the shape [pre_g1_g2_g3.e], maybe
    followed by one newline, and binds exactly the four groups. *)
Lemma re_match_position_inv s m :
  re_match position_pattern s = Some m ->
  exists pre g1 g2 g3 e tail,
    s = position_name pre g1 g2 g3 e tail
    /\ one_line pre = true
    /\ is_number g1 = true /\ is_number g2 = true /\ is_number g3 = true
    /\ is_extension e = true
    /\ (tail = [] \/ tail = [newline])
    /\ m = position_groups g1 g2 g3 e.
Proof.
  intros H. apply re_match_sound in H. destruct H as (s1 & s2 & -> & M).
  apply pattern_matches_elim in M.
  destruct M as (pre & g1 & g2 & g3 & e & E & M).
  exists pre, g1, g2, g3, e, s2. split; [exact E | exact M].
Qed.

(** A name of that shape matches, and the groups are its three numbers
    and its extension. *)
Lemma re_match_position_name pre g1 g2 g3 e tail :
  one_line pre = true ->
  is_number g1 = true -> is_number g2 = true -> is_number g3 = true ->
  is_extension e = true ->
  tail = [] \/ tail = [newline] ->
  re_match position_pattern (position_name pre g1 g2 g3 e tail)
  = Some (position_groups g1 g2 g3 e).
Proof.
  intros Hpre H1 H2 H3 He Ht.
  destruct (pattern_matches_intro pre g1 g2 g3 e tail Hpre H1 H2 H3 He Ht) as (s1 & E & M).
  destruct (re_match_complete M) as [m' Hm']. rewrite <- E in Hm'.
  rewrite Hm'. f_equal.
  apply re_match_position_inv in Hm'.
  destruct Hm' as (pre' & g1' & g2' & g3' & e' & tail' & E' & _ & H1' & H2' & H3' & He' & Ht' & ->).
  apply position_name_unique in E'; auto.
  destruct E' as (_ & -> & -> & -> & -> & _). reflexivity.
Qed.

(** *** Names that do not match *)

Lemma has_char_false x s : has_char x s = false <-> ~ In x s.
Proof.
  unfold has_char. split.
  - intros H Hin. assert (E : existsb (Ascii.eqb x) s = true).
    { apply existsb_exists. exists x. split; [exact Hin | apply Ascii.eqb_refl]. }
    congruence.
  - intros H. destruct (existsb (Ascii.eqb x) s) eqn:E; [|reflexivity].
    apply existsb_exists in E. destruct E as (c & Hin & Hc).
    apply Ascii.eqb_eq in Hc. subst c. contradiction.
Qed.

(** A match of a name cut at its last dot: what follows the dot is the
    extension, maybe with a newline, and what precedes it ends in the three
    groups. *)
Lemma re_match_stem_inv stem x m :
  ~ In "." x ->
  re_match position_pattern (stem ++ "." :: x) = Some m ->
  exists pre g1 g2 g3 e tail,
    stem = pre ++ "_" :: g1 ++ "_" :: g2 ++ "_" :: g3
    /\ x = e ++ tail
    /\ one_line pre = true
    /\ is_number g1 = true /\ is_number g2 = true /\ is_number g3 = true
    /\ is_extension e = true
    /\ (tail = [] \/ tail = [newline])
    /\ m = position_groups g1 g2 g3 e.
Proof.
  intros Hx H. apply re_match_position_inv in H.
  destruct H as (pre & g1 & g2 & g3 & e & tail & E & Hpre & H1 & H2 & H3 & He & Ht & ->).
  unfold position_name in E.
  change (pre ++ "_" :: g1 ++ "_" :: g2 ++ "_" :: g3 ++ "." :: e ++ tail)
    with (pre ++ ("_" :: g1) ++ ("_" :: g2) ++ ("_" :: g3) ++ "." :: e ++ tail) in E.
  rewrite !app_assoc in E.
  apply split_last_unique in E; [|exact Hx|].
  - destruct E as [-> ->]. exists pre, g1, g2, g3, e, tail.
    rewrite <- !app_assoc. simpl. repeat split; auto.
  - intros Hin. apply in_app_or in Hin. destruct Hin as [Hin | Hin].
    + exact (extension_no_dot _ He Hin).
    + destruct Ht as [-> | ->]; simpl in Hin; intuition discriminate.
Qed.

(** A name whose last dot is followed by anything but png, jpg or jpeg
    does not match. *)
Lemma unknown_extension_no_match stem x :
  has_char "." x = false -> has_char newline x = false -> is_extension x = false ->
  re_match position_pattern (stem ++ "." :: x) = None.
Proof.
  intros Hd Hn He.
  destruct (re_match position_pattern (stem ++ "." :: x)) as [m|] eqn:H; [|reflexivity].
  apply re_match_stem_inv in H; [|apply has_char_false; exact Hd].
  destruct H as (pre & g1 & g2 & g3 & e & tail & _ & -> & _ & _ & _ & _ & He' & Ht & _).
  destruct Ht as [-> | ->].
  - rewrite app_nil_r in He. congruence.
  - apply has_char_false in Hn. exfalso. apply Hn.
    apply in_or_app. right. left. reflexivity.
Qed.

Lemma after_last_app x a b :
  ~ In x b -> after_last x (a ++ x :: b) = Some b.
Proof.
  intros Hb.
  assert (N : after_last x b = None).
  { induction b as [|c b IH]; simpl; [reflexivity|].
    rewrite IH by (intros Hin; apply Hb; right; exact Hin).
    destruct (Ascii.eqb c x) eqn:E; [|reflexivity].
    apply Ascii.eqb_eq in E. subst c. exfalso. apply Hb. left. reflexivity. }
  induction a as [|c a IH]; simpl.
  - rewrite N, Ascii.eqb_refl. reflexivity.
  - rewrite IH. reflexivity.
Qed.

(** A name with two groups in front of its last dot, and no third one in
    front of them, does not match. *)
Lemma two_groups_no_match pre n1 n2 x :
  ends_with_number_group pre = false ->
  ~ In "_" n1 -> ~ In "_" n2 -> ~ In "." x ->
  re_match position_pattern (pre ++ "_" :: n1 ++ "_" :: n2 ++ "." :: x) = None.
Proof.
  intros Hpre H1 H2 Hx.
  destruct (re_match position_pattern (pre ++ "_" :: n1 ++ "_" :: n2 ++ "." :: x))
    as [m|] eqn:H; [|reflexivity].
  change (pre ++ "_" :: n1 ++ "_" :: n2 ++ "." :: x)
    with (pre ++ ("_" :: n1) ++ ("_" :: n2) ++ "." :: x) in H.
  rewrite !app_assoc in H.
  apply re_match_stem_inv in H; [|exact Hx].
  destruct H as (pre' & g1 & g2 & g3 & e & tail & E & _ & _ & G1 & G2 & G3 & _).
  change (pre' ++ "_" :: g1 ++ "_" :: g2 ++ "_" :: g3)
    with (pre' ++ ("_" :: g1) ++ ("_" :: g2) ++ "_" :: g3) in E.
  rewrite <- !app_assoc in E. simpl in E.
  change (pre ++ "_" :: n1 ++ "_" :: n2) with (pre ++ ("_" :: n1) ++ "_" :: n2) in E.
  change (pre' ++ "_" :: g1 ++ "_" :: g2 ++ "_" :: g3)
    with (pre' ++ ("_" :: g1) ++ ("_" :: g2) ++ "_" :: g3) in E.
  rewrite !app_assoc in E.
  apply split_last_unique in E; [|exact H2|apply number_no_underscore; exact G3].
  destruct E as [E _].
  apply split_last_unique in E; [|exact H1|apply number_no_underscore; exact G2].
  destruct E as [-> _].
  unfold ends_with_number_group in Hpre.
  rewrite after_last_app in Hpre by (apply number_no_underscore; exact G1).
  congruence.
Qed.

(** * [float] on the groups of a match *)

Lemma read_digits_rest s : forall acc n,
  exists v, read_digits s acc n
            = (v, n + (List.length s - List.length (drop_digits s)), drop_digits s).
Proof.
  induction s as [|c s IH]; intros acc n; cbn [read_digits drop_digits].
  - exists acc. simpl. rewrite Nat.add_0_r. reflexivity.
  - destruct (is_digit c) eqn:Hc.
    + destruct (IH (10 * acc + digit_value c)%N (S n)) as [v Hv].
      exists v. rewrite Hv. pose proof (drop_digits_length s).
      cbn [List.length]. do 2 f_equal. lia.
    + exists acc. do 2 f_equal. lia.
Qed.

Lemma decimal_unsigned_defined neg body :
  is_unsigned body = true -> exists m k, decimal_unsigned neg body = Some (neg, m, k).
Proof.
  intros H. unfold decimal_unsigned.
  destruct (read_digits_rest body 0%N 0) as [ip Hip]. rewrite Hip.
  destruct body as [|c body]; [discriminate|].
  unfold is_unsigned in H. apply andb_true_iff in H. destruct H as [Hc H].
  assert (L : (0 + (List.length (c :: body) - List.length (drop_digits (c :: body))) =? 0)%nat
              = false).
  { apply Nat.eqb_neq. cbn [drop_digits]. rewrite Hc. cbn [List.length].
    pose proof (drop_digits_length body). lia. }
  destruct (drop_digits (c :: body)) as [|d frac].
  - rewrite L. eauto.
  - apply andb_true_iff in H. destruct H as [-> Hf].
    destruct (read_digits_rest frac ip 0) as [m Hm]. rewrite Hm.
    rewrite (drop_digits_all _ Hf).
    apply Nat.eqb_neq in L.
    destruct (Nat.eqb_spec (0 + (List.length (c :: body) - List.length (d :: frac))
                            + (0 + (List.length frac - List.length (@nil ascii)))) 0);
      [lia | eauto].
Qed.

Lemma decimal_of_number s :
  is_number s = true -> exists neg m k, decimal_of_str s = Some (neg, m, k).
Proof.
  destruct s as [|c t]; [discriminate|]. simpl.
  destruct (Ascii.eqb c "-") eqn:Hm; intros H.
  - exists true. apply decimal_unsigned_defined. exact H.
  - exists false. destruct (Ascii.eqb c "+") eqn:Hp.
    + apply Ascii.eqb_eq in Hp. subst c. discriminate.
    + apply decimal_unsigned_defined. exact H.
Qed.

(** Every string of [is_number] is one [float] converts. *)
Lemma py_float_number s :
  is_number s = true -> exists x, py_float s = Return x.
Proof.
  intros H. destruct (decimal_of_number s H) as (neg & m & k & E).
  unfold py_float. rewrite E. eauto.
Qed.

(** The three numeric groups of a match are bound, and [float] accepts
    each of them. *)
Lemma float_groups_defined f m :
  re_match position_pattern f = Some m ->
  exists x y z,
    float_group m 1 = Return x /\ float_group m 2 = Return y /\ float_group m 3 = Return z.
Proof.
  intros H. apply re_match_position_inv in H.
  destruct H as (pre & g1 & g2 & g3 & e & tail & _ & _ & H1 & H2 & H3 & _ & _ & ->).
  destruct (py_float_number _ H1) as [x Hx].
  destruct (py_float_number _ H2) as [y Hy].
  destruct (py_float_number _ H3) as [z Hz].
  exists x, y, z. unfold float_group, position_groups. simpl. auto.
Qed.

(** * The loop of the extractor *)

(** One step of the loop: a matching path appends its triple and its
    index, any other path leaves the state as it is; no step raises. *)
Lemma visit_spec i p ps vs :
  (matched p = true /\
   exists pos, parsed_from p pos /\ visit i p (ps, vs) = Return (ps ++ [pos], vs ++ [i]))
  \/ (matched p = false /\ visit i p (ps, vs) = Return (ps, vs)).
Proof.
  unfold matched, visit.
  destruct (re_match position_pattern (basename p)) as [m|] eqn:Hm.
  - left. split; [reflexivity|].
    destruct (float_groups_defined _ _ Hm) as (x & y & z & Hx & Hy & Hz).
    exists [x; y; z]. split.
    + exists m, x, y, z. auto.
    + rewrite Hx, Hy, Hz. reflexivity.
  - right. auto.
Qed.

Lemma visit_all_spec images : forall i ps vs,
  exists ps' vs',
    visit_all images i (ps, vs) = Return (ps ++ ps', vs ++ vs')
    /\ Forall2 parsed_from (filter matched images) ps'.
Proof.
  induction images as [|p images IH]; intros i ps vs; cbn [visit_all filter].
  - exists [], []. rewrite !app_nil_r. auto.
  - destruct (visit_spec i p ps vs) as [(Hm & pos & Hpos & Hv) | (Hm & Hv)];
      rewrite Hv, Hm; cbn [bind].
    + destruct (IH (S i) (ps ++ [pos]) (vs ++ [i])) as (ps' & vs' & E & F).
      exists (pos :: ps'), (i :: vs'). rewrite E, <- !app_assoc. simpl. auto.
    + apply IH.
Qed.

(** The three outcomes of a call, by the number of matching paths. *)
Lemma extract_spec images args :
  exists positions,
    Forall2 parsed_from (filter matched images) positions
    /\ extract_structured_camera_positions images args
       = if (List.length positions =? List.length images)%nat
         then (Return (Some positions), [msg_extracted (List.length positions)])
         else if (0 <? List.length positions)%nat
         then (Return None,
               [msg_partial (List.length positions) (List.length images); msg_default])
         else (Return None, []).
Proof.
  destruct (visit_all_spec images 0 [] []) as (ps & vs & E & F).
  exists ps. split; [exact F|].
  unfold extract_structured_camera_positions. rewrite E. reflexivity.
Qed.

Lemma Forall2_length_eq A B (P : A -> B -> Prop) l l' :
  Forall2 P l l' -> List.length l = List.length l'.
Proof. induction 1; simpl; congruence. Qed.

Lemma Forall2_nth A B (P : A -> B -> Prop) l l' :
  Forall2 P l l' ->
  forall i a, nth_error l i = Some a -> exists b, nth_error l' i = Some b /\ P a b.
Proof.
  induction 1 as [|a0 b0 l l' H0 H IH]; intros [|i] a E; simpl in *; try discriminate.
  - injection E as <-. eauto.
  - eauto.
Qed.

Lemma filter_all A (f : A -> bool) l :
  (forall a, In a l -> f a = true) -> filter f l = l.
Proof.
  induction l as [|a l IH]; simpl; intros H; [reflexivity|].
  rewrite (H a) by auto. f_equal. auto.
Qed.

Lemma filter_none A (f : A -> bool) l :
  (forall a, In a l -> f a = false) -> filter f l = [].
Proof.
  induction l as [|a l IH]; simpl; intros H; [reflexivity|].
  rewrite (H a) by auto. auto.
Qed.

(** * The extractor: coverage *)

(** When every path matches, the call returns the triples of all of
    them, in order. *)
Lemma full_coverage_spec images args :
  forallb matched images = true ->
  exists positions,
    extract_structured_camera_positions images args
    = (Return (Some positions), [msg_extracted (List.length images)])
    /\ Forall2 parsed_from images positions.
Proof.
  intros Hall. rewrite forallb_forall in Hall.
  destruct (extract_spec images args) as (positions & F & E).
  rewrite (filter_all _ _ _ Hall) in F.
  pose proof (Forall2_length_eq _ _ _ _ _ F) as L.
  exists positions. rewrite E, <- L, Nat.eqb_refl. auto.
Qed.

(** When the list is not empty and no path matches, the call returns
    [None] and prints nothing. *)
Lemma no_coverage_spec images args :
  images <> [] ->
  (forall p, In p images -> matched p = false) ->
  extract_structured_camera_positions images args = (Return None, []).
Proof.
  intros Hne Hall.
  destruct (extract_spec images args) as (positions & F & E).
  rewrite filter_none in F by exact Hall.
  inversion F; subst. rewrite E.
  destruct images; [congruence | reflexivity].
Qed.

(** C1. When the list of paths is not empty and the base filename of every
    path matches the pattern, the extractor returns one triple per path, the
    i-th triple being the one read from the i-th path, and prints the number
    of names it read positions from. *)
Theorem full_coverage_returns_every_position (images : list str) (args : Namespace) :
  images <> [] ->
  forallb matched images = true ->
  exists positions,
    extract_structured_camera_positions images args
    = (Return (Some positions), [msg_extracted (List.length images)])
    /\ List.length positions = List.length images
    /\ forall i p, nth_error images i = Some p ->
         exists pos, nth_error positions i = Some pos /\ parsed_from p pos.
Proof.
  intros _ Hall.
  destruct (full_coverage_spec images args Hall) as (positions & E & F).
  exists positions. split; [exact E|]. split.
  - symmetry. exact (Forall2_length_eq _ _ _ _ _ F).
  - intros i p Hp. exact (Forall2_nth _ _ _ _ _ F i p Hp).
Qed.

Lemma full_coverage_witness :
  exists positions,
    extract_structured_camera_positions
      [lit "a_1_2_3.png"; lit "views/b_-1.5_0_0.5.jpg"] sample_args
    = (Return (Some positions), [msg_extracted 2])
    /\ List.length positions = 2
    /\ forall i p,
         nth_error [lit "a_1_2_3.png"; lit "views/b_-1.5_0_0.5.jpg"] i = Some p ->
         exists pos, nth_error positions i = Some pos /\ parsed_from p pos.
Proof.
  apply (full_coverage_returns_every_position
           [lit "a_1_2_3.png"; lit "views/b_-1.5_0_0.5.jpg"] sample_args);
    [discriminate | reflexivity].
Defined.

(** C2. When some but not all base filenames match, the extractor prints
    the two lines of the partial-coverage warning and returns [None]; and
    whatever the input, a list it returns is as long as the input. *)
Theorem partial_coverage_warns_and_returns_none (images : list str) (args : Namespace) :
  0 < List.length (filter matched images) ->
  List.length (filter matched images) < List.length images ->
  extract_structured_camera_positions images args
  = (Return None,
     [msg_partial (List.length (filter matched images)) (List.length images);
      msg_default])
  /\ (forall l a positions,
        fst (extract_structured_camera_positions l a) = Return (Some positions) ->
        List.length positions = List.length l).
Proof.
  intros Hpos Hlt. split.
  - destruct (extract_spec images args) as (positions & F & E).
    pose proof (Forall2_length_eq _ _ _ _ _ F) as L. rewrite E, <- L.
    destruct (Nat.eqb_spec (List.length (filter matched images)) (List.length images));
      [lia|].
    destruct (Nat.ltb_spec 0 (List.length (filter matched images))); [reflexivity | lia].
  - intros l a positions H.
    destruct (extract_spec l a) as (ps & F & E). rewrite E in H.
    destruct (Nat.eqb_spec (List.length ps) (List.length l)) as [L | L].
    + simpl in H. injection H as <-. exact L.
    + destruct (0 <? List.length ps)%nat; discriminate.
Qed.

Lemma partial_coverage_witness :
  extract_structured_camera_positions [lit "img_1_2_3.png"; lit "random.jpg"] sample_args
  = (Return None, [msg_partial 1 2; msg_default])
  /\ (forall l a positions,
        fst (extract_structured_camera_positions l a) = Return (Some positions) ->
        List.length positions = List.length l).
Proof.
  apply (partial_coverage_warns_and_returns_none
           [lit "img_1_2_3.png"; lit "random.jpg"] sample_args);
    vm_compute; lia.
Defined.

(** C4. The extractor raises on no list of paths: a base filename that
    does not match leaves the matched set as it is, and each of the three
    numeric groups of a match is a string that [float] converts. *)
Theorem extractor_never_raises (images : list str) (args : Namespace) :
  (exists result out,
     extract_structured_camera_positions images args = (Return result, out))
  /\ (forall i p st, matched p = false -> visit i p st = Return st)
  /\ (forall f m, re_match position_pattern f = Some m ->
        forall n, n = 1 \/ n = 2 \/ n = 3 ->
        exists s x, group m n = Some s /\ py_float s = Return x).
Proof.
  split; [|split].
  - destruct (extract_spec images args) as (positions & _ & E). rewrite E.
    destruct (List.length positions =? List.length images)%nat; [eauto|].
    destruct (0 <? List.length positions)%nat; eauto.
  - intros i p [ps vs] H.
    destruct (visit_spec i p ps vs) as [(Hm & _) | (_ & Hv)]; [congruence | exact Hv].
  - intros f m H n Hn. apply re_match_position_inv in H.
    destruct H as (pre & g1 & g2 & g3 & e & tail & _ & _ & H1 & H2 & H3 & _ & _ & ->).
    destruct Hn as [-> | [-> | ->]]; simpl.
    + destruct (py_float_number _ H1) as [x Hx]. eauto.
    + destruct (py_float_number _ H2) as [x Hx]. eauto.
    + destruct (py_float_number _ H3) as [x Hx]. eauto.
Qed.

Lemma extractor_never_raises_witness :
  (exists result out,
     extract_structured_camera_positions
       [lit "shot_-12_3._0.25.jpeg"; lit "_._._..png"; lit "x_1e5_2_3.png"] sample_args
     = (Return result, out))
  /\ visit 1 (lit "_._._..png") ([], []) = Return ([], [])
  /\ exists s x,
       group (position_groups (lit "-12") (lit "3.") (lit "0.25") (lit "jpeg")) 2 = Some s
       /\ py_float s = Return x.
Proof.
  destruct (extractor_never_raises
              [lit "shot_-12_3._0.25.jpeg"; lit "_._._..png"; lit "x_1e5_2_3.png"]
              sample_args) as (H1 & H2 & H3).
  split; [exact H1|]. split.
  - apply H2. reflexivity.
  - apply (H3 (lit "shot_-12_3._0.25.jpeg")); [reflexivity | auto].
Defined.

(** C6. When the list is not empty and no base filename matches, the
    extractor returns [None] and prints nothing. *)
Theorem no_match_returns_none_silently (images : list str) (args : Namespace) :
  images <> [] ->
  forallb (fun p => negb (matched p)) images = true ->
  extract_structured_camera_positions images args = (Return None, []).
Proof.
  intros Hne Hall. rewrite forallb_forall in Hall.
  apply no_coverage_spec; [exact Hne|].
  intros p Hp. apply negb_true_iff. auto.
Qed.

Lemma no_match_witness :
  extract_structured_camera_positions [lit "photo1.png"; lit "photo2.jpg"] sample_args
  = (Return None, []).
Proof.
  apply (no_match_returns_none_silently [lit "photo1.png"; lit "photo2.jpg"] sample_args);
    [discriminate | reflexivity].
Defined.

(** C9. On the empty list the extractor takes the branch of full
    coverage: it returns the empty list, which is not [None], and prints
    the message for 0 filenames. *)
Theorem empty_input_is_full_coverage (args : Namespace) :
  extract_structured_camera_positions [] args
  = (Return (Some []), [lit "Extracted camera positions from 0 image filenames"])
  /\ Return (Some (@nil position)) <> Return None.
Proof.
  split; [reflexivity | discriminate].
Qed.

(** * The pattern: extensions and numeric groups *)

Lemma lower_extension_chars e c :
  is_extension (lower e) = true -> In c e -> c <> "." /\ c <> newline.
Proof.
  intros H Hin. apply (in_map lower_char) in Hin. fold (lower e) in Hin.
  apply is_extension_cases in H.
  split; intros ->; destruct H as [H | [H | H]]; rewrite H in Hin;
    vm_compute in Hin; intuition discriminate.
Qed.

Lemma lower_extension_fixed e : is_extension e = true -> lower e = e.
Proof.
  intros H. apply is_extension_cases in H. destruct H as [-> | [-> | ->]]; reflexivity.
Qed.

Lemma position_name_stem pre g1 g2 g3 e :
  position_name pre g1 g2 g3 e []
  = (pre ++ "_" :: g1 ++ "_" :: g2 ++ "_" :: g3) ++ "." :: e.
Proof.
  unfold position_name. rewrite app_nil_r.
  change (pre ++ "_" :: g1 ++ "_" :: g2 ++ "_" :: g3 ++ "." :: e)
    with (pre ++ ("_" :: g1) ++ ("_" :: g2) ++ ("_" :: g3) ++ "." :: e).
  change (pre ++ "_" :: g1 ++ "_" :: g2 ++ "_" :: g3)
    with (pre ++ ("_" :: g1) ++ ("_" :: g2) ++ ("_" :: g3)).
  rewrite <- !app_assoc. reflexivity.
Qed.

(** C3, as the code has it.  The extension is matched in lower case only:
    a path whose base filename is a one-line prefix, an underscore, three
    numbers separated by underscores, a dot and png, jpg or jpeg in some
    letter case matches, and yields the triple of its three numbers, when
    the extension is written in lower case; in any other letter case it
    does not match. *)
Theorem extension_match_is_case_sensitive (p pre g1 g2 g3 e : str) :
  basename p = position_name pre g1 g2 g3 e [] ->
  one_line pre = true ->
  is_number g1 = true -> is_number g2 = true -> is_number g3 = true ->
  is_extension (lower e) = true ->
  (e = lower e ->
     re_match position_pattern (basename p) = Some (position_groups g1 g2 g3 e)
     /\ exists x y z,
          py_float g1 = Return x /\ py_float g2 = Return y /\ py_float g3 = Return z
          /\ parsed_from p [x; y; z])
  /\ (e <> lower e -> re_match position_pattern (basename p) = None).
Proof.
  intros Hp Hpre H1 H2 H3 He. split.
  - intros El. rewrite <- El in He.
    assert (M : re_match position_pattern (basename p) = Some (position_groups g1 g2 g3 e)).
    { rewrite Hp. apply re_match_position_name; auto. }
    split; [exact M|].
    destruct (py_float_number _ H1) as [x Hx].
    destruct (py_float_number _ H2) as [y Hy].
    destruct (py_float_number _ H3) as [z Hz].
    exists x, y, z. repeat split; auto.
    exists (position_groups g1 g2 g3 e), x, y, z.
    unfold float_group, position_groups. simpl. auto.
  - intros Hne. rewrite Hp, position_name_stem.
    apply unknown_extension_no_match.
    + apply has_char_false. intros Hin.
      destruct (lower_extension_chars _ _ He Hin) as [H _]. congruence.
    + apply has_char_false. intros Hin.
      destruct (lower_extension_chars _ _ He Hin) as [_ H]. congruence.
    + destruct (is_extension e) eqn:E; [|reflexivity].
      apply lower_extension_fixed in E. congruence.
Qed.

Lemma extension_match_witness :
  (lit "jpeg" = lower (lit "jpeg") ->
     re_match position_pattern (basename (lit "views/a_-1.5_0_0.5.jpeg"))
     = Some (position_groups (lit "-1.5") (lit "0") (lit "0.5") (lit "jpeg"))
     /\ exists x y z,
          py_float (lit "-1.5") = Return x /\ py_float (lit "0") = Return y
          /\ py_float (lit "0.5") = Return z
          /\ parsed_from (lit "views/a_-1.5_0_0.5.jpeg") [x; y; z])
  /\ (lit "jpeg" <> lower (lit "jpeg") ->
      re_match position_pattern (basename (lit "views/a_-1.5_0_0.5.jpeg")) = None).
Proof.
  apply (extension_match_is_case_sensitive
           (lit "views/a_-1.5_0_0.5.jpeg")
           (lit "a") (lit "-1.5") (lit "0") (lit "0.5") (lit "jpeg"));
    reflexivity.
Defined.

(** C3, as the spec has it, fails: [a_1_2_3.PNG] is a one-line prefix, three
    numbers and the extension png in upper case, and it does not match; the
    extractor returns [None] on it. *)
Lemma upper_case_extension_does_not_match :
  lit "a_1_2_3.PNG" = position_name (lit "a") (lit "1") (lit "2") (lit "3") (lit "PNG") []
  /\ one_line (lit "a") = true
  /\ is_number (lit "1") = true /\ is_number (lit "2") = true
  /\ is_number (lit "3") = true
  /\ is_extension (lower (lit "PNG")) = true
  /\ re_match position_pattern (lit "a_1_2_3.PNG") = None
  /\ extract_structured_camera_positions [lit "a_1_2_3.PNG"] sample_args
     = (Return None, []).
Proof. repeat split; reflexivity. Qed.

(** C5. A base filename with only two numeric groups in front of its
    extension does not match, nor does one with three groups and an
    extension other than png, jpg and jpeg; on a list of such names only,
    the extractor returns [None]. *)
Theorem too_few_groups_or_unsupported_extension (images : list str) (args : Namespace) :
  images <> [] ->
  (forall p, In p images ->
     two_group_name (basename p) \/ unsupported_extension_name (basename p)) ->
  (forall p, In p images -> re_match position_pattern (basename p) = None)
  /\ extract_structured_camera_positions images args = (Return None, []).
Proof.
  intros Hne Hall.
  assert (N : forall p, In p images -> re_match position_pattern (basename p) = None).
  { intros p Hp. destruct (Hall p Hp) as [H | H].
    - destruct H as (pre & n1 & n2 & e & -> & Hpre & H1 & H2 & He).
      apply two_groups_no_match; auto using number_no_underscore, extension_no_dot.
    - destruct H as (pre & g1 & g2 & g3 & x & -> & _ & _ & _ & Hd & Hn & Hx).
      change (pre ++ "_" :: g1 ++ "_" :: g2 ++ "_" :: g3 ++ "." :: x)
        with (pre ++ ("_" :: g1) ++ ("_" :: g2) ++ ("_" :: g3) ++ "." :: x).
      rewrite !app_assoc. apply unknown_extension_no_match; auto.
      destruct (is_extension x) eqn:E; [|reflexivity].
      rewrite (lower_extension_fixed _ E) in Hx. congruence. }
  split; [exact N|].
  apply no_coverage_spec; [exact Hne|].
  intros p Hp. unfold matched. rewrite (N p Hp). reflexivity.
Qed.

Lemma too_few_groups_witness :
  (forall p, In p [lit "views/img_1_2.png"; lit "img_1_2_3.bmp"] ->
     re_match position_pattern (basename p) = None)
  /\ extract_structured_camera_positions
       [lit "views/img_1_2.png"; lit "img_1_2_3.bmp"] sample_args
     = (Return None, []).
Proof.
  apply (too_few_groups_or_unsupported_extension
           [lit "views/img_1_2.png"; lit "img_1_2_3.bmp"] sample_args);
    [discriminate|].
  intros p [<- | [<- | []]].
  - left. exists (lit "img"), (lit "1"), (lit "2"), (lit "png").
    repeat split; reflexivity.
  - right. exists (lit "img"), (lit "1"), (lit "2"), (lit "3"), (lit "bmp").
    repeat split; reflexivity.
Defined.

(** * The script: image count and remeshing parameters *)

Lemma insert_sorted_count (f : str -> bool) x l :
  List.length (filter f (insert_sorted x l)) = List.length (filter f (x :: l)).
Proof.
  induction l as [|y l IH]; [reflexivity|].
  cbn [insert_sorted]. destruct (str_leb x y); [reflexivity|].
  cbn [filter] in *. destruct (f y), (f x); cbn [List.length] in *; lia.
Qed.

Lemma sorted_count (f : str -> bool) l :
  List.length (filter f (sorted l)) = List.length (filter f l).
Proof.
  induction l as [|x l IH]; [reflexivity|].
  unfold sorted in *. cbn [fold_right]. rewrite insert_sorted_count.
  cbn [filter]. destruct (f x); cbn [List.length]; lia.
Qed.

Lemma collect_images_length dir files : forall acc,
  List.length (collect_images dir files acc)
  = List.length acc + List.length (filter is_image_file files).
Proof.
  induction files as [|file files IH]; intros acc; cbn [collect_images filter].
  - cbn [List.length]. lia.
  - rewrite IH. destruct (is_image_file file); cbn [List.length];
      [rewrite length_app; cbn [List.length]|]; lia.
Qed.

(** The scan finds as many paths as the directory has image files. *)
Lemma find_images_length args listing :
  List.length (find_images args listing) = List.length (filter is_image_file listing).
Proof.
  unfold find_images. rewrite collect_images_length, sorted_count. reflexivity.
Qed.

(** C8. The extractor has no minimal count: on one path whose base
    filename matches it returns the one triple.  The script raises
    [ValueError] whenever the scan of the directory finds fewer than two
    image files. *)
Theorem minimum_count_is_checked_by_the_script
    (p : str) (args : Namespace) (listing : list str) :
  matched p = true ->
  List.length (filter is_image_file listing) < 2 ->
  (exists pos,
     parsed_from p pos
     /\ extract_structured_camera_positions [p] args
        = (Return (Some [pos]), [msg_extracted 1]))
  /\ discover args listing
     = (Raise (ValueError (msg_too_few (List.length (filter is_image_file listing))
                             (image_dir args))), []).
Proof.
  intros Hp Hl. split.
  - destruct (full_coverage_spec [p] args) as (positions & E & F).
    + simpl. rewrite Hp. reflexivity.
    + inversion F as [|? pos ? ps' Hpos F']; subst. inversion F'; subst.
      exists pos. auto.
  - unfold discover. rewrite find_images_length.
    destruct (Nat.ltb_spec (List.length (filter is_image_file listing)) 2);
      [reflexivity | lia].
Qed.

Lemma minimum_count_witness :
  (exists pos,
     parsed_from (lit "views/a_1_2_3.png") pos
     /\ extract_structured_camera_positions [lit "views/a_1_2_3.png"] sample_args
        = (Return (Some [pos]), [msg_extracted 1]))
  /\ discover sample_args [lit "notes.txt"; lit "a_1_2_3.png"]
     = (Raise (ValueError (msg_too_few 1 (lit "views"))), []).
Proof.
  apply (minimum_count_is_checked_by_the_script
           (lit "views/a_1_2_3.png") sample_args [lit "notes.txt"; lit "a_1_2_3.png"]);
    [reflexivity | vm_compute; lia].
Defined.

(** C10. The vertex count of the remeshing is a function of the two
    options: -1 for keep, the target count for vertex, and the target count
    divided by two and rounded down for faces.  A target count given on the
    command line is accepted only when it is strictly positive: a value that
    is zero or negative is rejected by [check_positive], and the parser ends
    the program. *)
Theorem vertex_count_from_options
    (py_int : str -> outcome Z) (args : Namespace) (n : Z) :
  target_count args = Some n ->
  (reduction_count_type args = Some (lit "keep") -> vertex_count args = Return (-1)%Z)
  /\ (reduction_count_type args = Some (lit "vertex") -> vertex_count args = Return n)
  /\ (reduction_count_type args = Some (lit "faces") ->
      vertex_count args = Return (n / 2)%Z
      /\ (2 * (n / 2) <= n < 2 * (n / 2) + 2)%Z)
  /\ (forall value v, check_positive py_int value = Return v -> (0 < v)%Z)
  /\ (forall value i, py_int value = Return i -> (i <= 0)%Z ->
        check_positive py_int value
        = Raise (ArgumentTypeError (value ++ lit " is an invalid positive int value"))
        /\ parse_target_count py_int (Some value) = Raise (SystemExit 2))
  /\ (forall given v, parse_target_count py_int given = Return v -> (0 < v)%Z).
Proof.
  intros Hn.
  assert (P : forall value v, check_positive py_int value = Return v -> (0 < v)%Z).
  { intros value v H. unfold check_positive in H.
    destruct (py_int value) as [i|e]; simpl in H; [|discriminate].
    destruct (Z.leb_spec i 0); [discriminate|]. injection H as <-. assumption. }
  repeat split.
  - intros Ht. unfold vertex_count. rewrite Ht. reflexivity.
  - intros Ht. unfold vertex_count. rewrite Ht, Hn. reflexivity.
  - unfold vertex_count. rewrite H, Hn. reflexivity.
  - pose proof (Z.mul_div_le n 2). lia.
  - pose proof (Z.mul_succ_div_gt n 2). lia.
  - exact P.
  - unfold check_positive. rewrite H. simpl.
    destruct (Z.leb_spec i 0); [reflexivity | lia].
  - unfold parse_target_count, check_positive. rewrite H. simpl.
    destruct (Z.leb_spec i 0); [reflexivity | lia].
  - intros given v H. unfold parse_target_count in H.
    destruct given as [value|].
    + destruct (check_positive py_int value) as [w|e] eqn:E; [|discriminate].
      injection H as <-. exact (P value w E).
    + injection H as <-. lia.
Qed.

Lemma vertex_count_witness :
  let args := {| image_dir := lit "views"; detect_camera_positions := false;
                 reduction_count_type := Some (lit "faces");
                 target_count := Some 2001%Z |} in
  (reduction_count_type args = Some (lit "keep") -> vertex_count args = Return (-1)%Z)
  /\ (reduction_count_type args = Some (lit "vertex") ->
      vertex_count args = Return 2001%Z)
  /\ (reduction_count_type args = Some (lit "faces") ->
      vertex_count args = Return (2001 / 2)%Z
      /\ (2 * (2001 / 2) <= 2001 < 2 * (2001 / 2) + 2)%Z)
  /\ (forall value v, check_positive int_of_str value = Return v -> (0 < v)%Z)
  /\ (forall value i, int_of_str value = Return i -> (i <= 0)%Z ->
        check_positive int_of_str value
        = Raise (ArgumentTypeError (value ++ lit " is an invalid positive int value"))
        /\ parse_target_count int_of_str (Some value) = Raise (SystemExit 2))
  /\ (forall given v, parse_target_count int_of_str given = Return v -> (0 < v)%Z).
Proof.
  intros args.
  apply (vertex_count_from_options int_of_str args 2001%Z). reflexivity.
Defined.

(** * Exact decimals are converted exactly *)

Local Open Scope Z_scope.



Lemma iter_pos_nat A (f : A -> A) (n : positive) : forall x,
  iter_pos f n x = Nat.iter (Pos.to_nat n) f x.
Proof.
  induction n as [n IH|n IH|]; intros x; cbn [iter_pos].
  - rewrite Pos2Nat.inj_xI, !IH.
    replace (S (2 * Pos.to_nat n))%nat with (Pos.to_nat n + (Pos.to_nat n + 1))%nat by lia.
    rewrite !Nat.iter_add. reflexivity.
  - rewrite Pos2Nat.inj_xO, !IH.
    replace (2 * Pos.to_nat n)%nat with (Pos.to_nat n + Pos.to_nat n)%nat by lia.
    rewrite Nat.iter_add. reflexivity.
  - reflexivity.
Qed.









Local Close Scope Z_scope.

(** * Round trip through a file name *)

Lemma basename_from_no_slash p : forall acc,
  has_char "/" p = false -> basename_from p acc = acc ++ p.
Proof.
  induction p as [|c p IH]; intros acc H; cbn [basename_from].
  - symmetry. apply app_nil_r.
  - unfold has_char in H. cbn [existsb] in H. apply orb_false_iff in H.
    destruct H as [Hc Hp]. rewrite Ascii.eqb_sym, Hc.
    rewrite IH by exact Hp. rewrite <- app_assoc. reflexivity.
Qed.

Lemma basename_no_slash p : has_char "/" p = false -> basename p = p.
Proof. intros H. unfold basename. rewrite basename_from_no_slash by exact H. reflexivity. Qed.

Lemma has_char_app x a b : has_char x (a ++ b) = has_char x a || has_char x b.
Proof. unfold has_char. apply existsb_app. Qed.





(** * Examples of the specification *)

(** -1.5 is [3 * 2^51 * 2^-52], 0.25 is [2^52 * 2^-54]; 0.1 is not a
    binary64 number, and its rendering is converted to the nearest one. *)
Example renders_minus_one_and_a_half :
  renders (S754_finite true 6755399441055744 (-52)) (lit "-1.5") = true
  /\ renders (S754_finite false 4503599627370496 (-54)) (lit "0.25") = true
  /\ renders (S754_zero true) (lit "-0.0") = true
  /\ py_float (lit "0.1") = Return (S754_finite false 7205759403792794 (-56))
  /\ renders (S754_finite false 7205759403792794 (-56)) (lit "0.1") = false.
Proof. repeat split; reflexivity. Qed.

(** Two names that match: [(1.0, 2.0, 3.0)] and [(-1.5, 0.0, 0.5)]. *)
Example two_matching_names :
  extract_structured_camera_positions
    [lit "a_1_2_3.png"; lit "b_-1.5_0_0.5.jpg"] sample_args
  = (Return (Some [[S754_finite false 4503599627370496 (-52);
                    S754_finite false 4503599627370496 (-51);
                    S754_finite false 6755399441055744 (-51)];
                   [S754_finite true 6755399441055744 (-52);
                    S754_zero false;
                    S754_finite false 4503599627370496 (-53)]]),
     [lit "Extracted camera positions from 2 image filenames"]).
Proof. reflexivity. Qed.

(** One name of two matches: the warning, and no list. *)
Example one_matching_name_of_two :
  extract_structured_camera_positions
    [lit "img_1_2_3.png"; lit "random.jpg"] sample_args
  = (Return None,
     [lit "Warning: Could only extract camera positions from 1 of 2 images";
      lit "Using default camera positions for all images"]).
Proof. reflexivity. Qed.

(** A trailing newline does not stop [$]; a newline in the prefix stops
    [.*]; the first number needs an underscore in front of it. *)
Example newline_and_prefix :
  re_match position_pattern (lit "a_1_2_3.png" ++ [newline])
  = Some (position_groups (lit "1") (lit "2") (lit "3") (lit "png"))
  /\ re_match position_pattern ("a" :: newline :: lit "_1_2_3.png") = None
  /\ re_match position_pattern (lit "1_2_3.png") = None
  /\ re_match position_pattern (lit "x_0_1_2_3.png")
     = Some (position_groups (lit "1") (lit "2") (lit "3") (lit "png")).
Proof. repeat split; reflexivity. Qed.

(** The scan takes [B.JPeG] and [b_1_2_3.PNG] for image files, in the
    order of [sorted]. *)
Example scan_is_case_insensitive :
  find_images sample_args [lit "b_1_2_3.PNG"; lit "a_1_2_3.png"; lit "x.txt"; lit "B.JPeG"]
  = [lit "views/B.JPeG"; lit "views/a_1_2_3.png"; lit "views/b_1_2_3.PNG"].
Proof. reflexivity. Qed.

(** A directory with [a_1_2_3.png] and [b_1_2_3.PNG]: the scan keeps both
    files, the pattern reads a position from the first only, and the script
    goes on without camera positions. *)
Example upper_case_file_in_the_directory :
  discover sample_args [lit "b_1_2_3.PNG"; lit "a_1_2_3.png"]
  = (Return ([lit "views/a_1_2_3.png"; lit "views/b_1_2_3.PNG"], None),
     [msg_partial 1 2; msg_default; msg_found 2]).
Proof. reflexivity. Qed.

(** * Further properties of the pattern and of the extractor *)

(** X1. The names [position_pattern] matches are exactly those made of a
    one-line prefix, an underscore, three numbers separated by underscores,
    a dot and png, jpg or jpeg, maybe followed by one newline; the groups of
    the match are the three numbers and the extension. *)
Theorem position_pattern_language (f : str) (m : groups) :
  re_match position_pattern f = Some m
  <-> exists pre g1 g2 g3 e tail,
        f = position_name pre g1 g2 g3 e tail
        /\ one_line pre = true
        /\ is_number g1 = true /\ is_number g2 = true /\ is_number g3 = true
        /\ is_extension e = true
        /\ (tail = [] \/ tail = [newline])
        /\ m = position_groups g1 g2 g3 e.
Proof.
  split.
  - apply re_match_position_inv.
  - intros (pre & g1 & g2 & g3 & e & tail & -> & Hpre & H1 & H2 & H3 & He & Ht & ->).
    apply re_match_position_name; assumption.
Qed.

Lemma position_pattern_language_witness :
  re_match position_pattern (lit "shot 7_-2._10_0.125.jpeg")
  = Some (position_groups (lit "-2.") (lit "10") (lit "0.125") (lit "jpeg")).
Proof.
  apply (position_pattern_language (lit "shot 7_-2._10_0.125.jpeg")).
  exists (lit "shot 7"), (lit "-2."), (lit "10"), (lit "0.125"), (lit "jpeg"), [].
  repeat split; auto.
Defined.

Lemma one_line_no_newline f : one_line f = true -> ~ In newline f.
Proof.
  unfold one_line. rewrite forallb_forall. intros H Hin.
  specialize (H _ Hin). discriminate.
Qed.

Lemma position_name_tail pre g1 g2 g3 e tail :
  position_name pre g1 g2 g3 e tail = position_name pre g1 g2 g3 e [] ++ tail.
Proof.
  unfold position_name. rewrite app_nil_r.
  change (pre ++ "_" :: g1 ++ "_" :: g2 ++ "_" :: g3 ++ "." :: e ++ tail)
    with (pre ++ ("_" :: g1) ++ ("_" :: g2) ++ ("_" :: g3) ++ ("." :: e) ++ tail).
  change (pre ++ "_" :: g1 ++ "_" :: g2 ++ "_" :: g3 ++ "." :: e)
    with (pre ++ ("_" :: g1) ++ ("_" :: g2) ++ ("_" :: g3) ++ ("." :: e)).
  rewrite <- !app_assoc. reflexivity.
Qed.

Lemma position_name_last pre g1 g2 g3 e :
  is_extension e = true ->
  exists front, position_name pre g1 g2 g3 e [] = front ++ ["g"].
Proof.
  intros He. rewrite position_name_stem.
  apply is_extension_cases in He. destruct He as [-> | [-> | ->]].
  - exists ((pre ++ "_" :: g1 ++ "_" :: g2 ++ "_" :: g3) ++ lit ".pn").
    exact (app_assoc _ (lit ".pn") ["g"]).
  - exists ((pre ++ "_" :: g1 ++ "_" :: g2 ++ "_" :: g3) ++ lit ".jp").
    exact (app_assoc _ (lit ".jp") ["g"]).
  - exists ((pre ++ "_" :: g1 ++ "_" :: g2 ++ "_" :: g3) ++ lit ".jpe").
    exact (app_assoc _ (lit ".jpe") ["g"]).
Qed.

(** X2. One newline at the end of a name is ignored: a name without
    newlines matches with it exactly as it matches without it. *)
Theorem trailing_newline_is_ignored (f : str) :
  one_line f = true ->
  re_match position_pattern (f ++ [newline]) = re_match position_pattern f.
Proof.
  intros Hf. apply one_line_no_newline in Hf.
  destruct (re_match position_pattern f) as [m|] eqn:M.
  - apply re_match_position_inv in M.
    destruct M as (pre & g1 & g2 & g3 & e & tail & -> & Hpre & H1 & H2 & H3 & He & Ht & ->).
    destruct Ht as [-> | ->].
    + rewrite <- position_name_tail. apply re_match_position_name; auto.
    + exfalso. apply Hf. rewrite position_name_tail.
      apply in_or_app. right. left. reflexivity.
  - destruct (re_match position_pattern (f ++ [newline])) as [m|] eqn:M'; [|reflexivity].
    exfalso. apply re_match_position_inv in M'.
    destruct M' as (pre & g1 & g2 & g3 & e & tail & E & Hpre & H1 & H2 & H3 & He & Ht & _).
    destruct Ht as [-> | ->].
    + destruct (position_name_last pre g1 g2 g3 e He) as [front F].
      rewrite F in E. apply app_inj_tail in E. destruct E as [_ E]. discriminate.
    + rewrite position_name_tail in E. apply app_inj_tail in E. destruct E as [-> _].
      rewrite re_match_position_name in M by auto. discriminate.
Qed.

Lemma trailing_newline_witness :
  re_match position_pattern (lit "a_1_2_3.png" ++ [newline])
  = re_match position_pattern (lit "a_1_2_3.png").
Proof.
  apply (trailing_newline_is_ignored (lit "a_1_2_3.png")). reflexivity.
Defined.

Lemma filter_length_all A (f : A -> bool) l :
  List.length (filter f l) = List.length l -> forallb f l = true.
Proof.
  induction l as [|a l IH]; simpl; [reflexivity|].
  pose proof (filter_length_le f l) as Hle. destruct (f a); simpl; intros H; [|lia].
  apply IH. lia.
Qed.

Lemma parsed_from_three p pos : parsed_from p pos -> List.length pos = 3.
Proof. intros (m & x & y & z & _ & _ & _ & _ & ->). reflexivity. Qed.

(** X3. The extractor returns a list exactly when every base filename
    matches (the empty list of paths included), and every element of a list
    it returns has three coordinates. *)
Theorem returns_a_list_iff_every_name_matches (images : list str) (args : Namespace) :
  ((exists positions,
      fst (extract_structured_camera_positions images args) = Return (Some positions))
   <-> forallb matched images = true)
  /\ (forall positions,
        fst (extract_structured_camera_positions images args) = Return (Some positions) ->
        Forall (fun pos => List.length pos = 3) positions).
Proof.
  destruct (extract_spec images args) as (ps & F & E).
  pose proof (Forall2_length_eq _ _ _ _ _ F) as L.
  assert (S : forall positions,
             fst (extract_structured_camera_positions images args) = Return (Some positions) ->
             positions = ps /\ List.length ps = List.length images).
  { intros positions H. rewrite E in H.
    destruct (Nat.eqb_spec (List.length ps) (List.length images)) as [Hl | Hl].
    - simpl in H. injection H as <-. auto.
    - destruct (0 <? List.length ps)%nat; discriminate. }
  split; [split|].
  - intros [positions H]. destruct (S _ H) as [_ Hl].
    apply filter_length_all. congruence.
  - intros Hall. destruct (full_coverage_spec images args Hall) as (positions & E' & _).
    exists positions. rewrite E'. reflexivity.
  - intros positions H. destruct (S _ H) as [-> _].
    clear - F. induction F; constructor; eauto using parsed_from_three.
Qed.

Lemma returns_a_list_witness :
  ((exists positions,
      fst (extract_structured_camera_positions
             [lit "a_1_2_3.png"; lit "b_4_5_6.JPG"] sample_args)
      = Return (Some positions))
   <-> forallb matched [lit "a_1_2_3.png"; lit "b_4_5_6.JPG"] = true)
  /\ (forall positions,
        fst (extract_structured_camera_positions
               [lit "a_1_2_3.png"; lit "b_4_5_6.JPG"] sample_args)
        = Return (Some positions) ->
        Forall (fun pos => List.length pos = 3) positions).
Proof.
  exact (returns_a_list_iff_every_name_matches
           [lit "a_1_2_3.png"; lit "b_4_5_6.JPG"] sample_args).
Defined.

Lemma matching_indices_spec images : forall i j,
  In j (matching_indices images i)
  <-> i <= j /\ exists p, nth_error images (j - i) = Some p /\ matched p = true.
Proof.
  induction images as [|p images IH]; intros i j; cbn [matching_indices].
  - split; [intros [] | intros (_ & q & H & _)]. destruct (j - i); discriminate.
  - assert (R : In j (matching_indices images (S i))
                <-> i < j /\ exists q, nth_error (p :: images) (j - i) = Some q
                                       /\ matched q = true).
    { rewrite IH. split; intros (Hle & q & Hq & Hm); (split; [lia|]); exists q;
        (split; [|exact Hm]).
      - replace (j - i) with (S (j - S i)) by lia. exact Hq.
      - replace (j - i) with (S (j - S i)) in Hq by lia. exact Hq. }
    destruct (matched p) eqn:Hp.
    + cbn [In]. rewrite R. split.
      * intros [<- | (Hlt & H)]; [|split; [lia | exact H]].
        split; [lia|]. exists p. rewrite Nat.sub_diag. auto.
      * intros (Hle & q & Hq & Hm).
        destruct (Nat.eq_dec i j) as [-> | Hne]; [left; reflexivity|].
        right. split; [lia|]. eauto.
    + rewrite R. split.
      * intros (Hlt & H). split; [lia | exact H].
      * intros (Hle & q & Hq & Hm).
        destruct (Nat.eq_dec i j) as [-> | Hne].
        -- rewrite Nat.sub_diag in Hq. injection Hq as <-. congruence.
        -- split; [lia|]. eauto.
Qed.

Lemma matching_indices_sorted images : forall i,
  StronglySorted lt (matching_indices images i).
Proof.
  induction images as [|p images IH]; intros i; cbn [matching_indices].
  - constructor.
  - destruct (matched p); [|apply IH].
    constructor; [apply IH|].
    apply Forall_forall. intros j Hj. apply matching_indices_spec in Hj. lia.
Qed.

Lemma visit_all_indices images : forall i ps vs,
  exists ps',
    visit_all images i (ps, vs) = Return (ps ++ ps', vs ++ matching_indices images i)
    /\ List.length ps' = List.length (matching_indices images i).
Proof.
  induction images as [|p images IH]; intros i ps vs; cbn [visit_all matching_indices].
  - exists []. rewrite !app_nil_r. auto.
  - destruct (visit_spec i p ps vs) as [(Hm & pos & Hpos & Hv) | (Hm & Hv)];
      rewrite Hv, Hm; cbn [bind].
    + destruct (IH (S i) (ps ++ [pos]) (vs ++ [i])) as (ps' & E & L).
      exists (pos :: ps'). rewrite E, <- !app_assoc. simpl. auto.
    + apply IH.
Qed.

(** X4. The loop keeps [valid_indices] in step with [positions]: at its
    end [valid_indices] has one index per triple, lists exactly the indices
    of the paths that match, and is in increasing order. *)
Theorem valid_indices_are_the_matching_indices (images : list str) :
  exists positions valid_indices,
    visit_all images 0 ([], []) = Return (positions, valid_indices)
    /\ List.length valid_indices = List.length positions
    /\ (forall i, In i valid_indices
                  <-> exists p, nth_error images i = Some p /\ matched p = true)
    /\ StronglySorted lt valid_indices.
Proof.
  destruct (visit_all_indices images 0 [] []) as (ps & E & L).
  exists ps, (matching_indices images 0). split; [exact E|].
  split; [symmetry; exact L|]. split.
  - intros i. rewrite matching_indices_spec, Nat.sub_0_r. split.
    + intros (_ & H). exact H.
    + intros H. split; [lia | exact H].
  - apply matching_indices_sorted.
Qed.

Lemma basename_from_app a : forall b acc,
  basename_from (a ++ b) acc = basename_from b (basename_from a acc).
Proof.
  induction a as [|c a IH]; intros b acc; [reflexivity|].
  cbn [app basename_from]. destruct (Ascii.eqb c "/"); apply IH.
Qed.

Lemma basename_from_slash_free p : forall acc,
  has_char "/" acc = false -> has_char "/" (basename_from p acc) = false.
Proof.
  induction p as [|c p IH]; intros acc H; cbn [basename_from]; [exact H|].
  destruct (Ascii.eqb c "/") eqn:Hc.
  - apply IH. reflexivity.
  - apply IH. rewrite has_char_app, H. unfold has_char. cbn [existsb].
    rewrite Ascii.eqb_sym, Hc. reflexivity.
Qed.

Lemma basename_idempotent p : basename (basename p) = basename p.
Proof.
  apply basename_no_slash. unfold basename. apply basename_from_slash_free. reflexivity.
Qed.

Lemma visit_basename i p st : visit i (basename p) st = visit i p st.
Proof. unfold visit. rewrite basename_idempotent. reflexivity. Qed.

Lemma visit_all_basename images : forall i st,
  visit_all (map basename images) i st = visit_all images i st.
Proof.
  induction images as [|p images IH]; intros i st; [reflexivity|].
  cbn [map visit_all]. rewrite visit_basename.
  destruct (visit i p st); cbn [bind]; [apply IH | reflexivity].
Qed.

(** X5. The extractor reads the base filenames only: the directories of
    the paths, and its second argument, change nothing of what it returns
    and prints. *)
Theorem extractor_reads_base_filenames_only (images : list str) (args args' : Namespace) :
  extract_structured_camera_positions images args
  = extract_structured_camera_positions (map basename images) args'.
Proof.
  unfold extract_structured_camera_positions.
  rewrite visit_all_basename, length_map. reflexivity.
Qed.

Lemma endswith_spec s suf :
  endswith s suf = true <-> exists front, s = front ++ suf.
Proof.
  unfold endswith. split.
  - intros H. apply andb_true_iff in H. destruct H as [_ H].
    apply str_eqb_eq in H.
    exists (firstn (List.length s - List.length suf) s).
    pose proof (firstn_skipn (List.length s - List.length suf) s) as FS.
    rewrite H in FS. symmetry. exact FS.
  - intros [front ->]. rewrite length_app.
    apply andb_true_iff. split; [apply Nat.leb_le; lia|].
    replace (List.length front + List.length suf - List.length suf)
      with (List.length front + 0) by lia.
    rewrite skipn_app, Nat.add_0_r, skipn_all.
    replace (List.length front - List.length front) with 0 by lia.
    apply str_eqb_eq. reflexivity.
Qed.

Lemma basename_join a b : basename (join a b) = basename b.
Proof.
  unfold join, basename.
  destruct (startswith b (lit "/")); [reflexivity|].
  destruct ((List.length a =? 0)%nat || endswith a (lit "/")) eqn:H.
  - rewrite basename_from_app. f_equal.
    apply orb_true_iff in H. destruct H as [H | H].
    + apply Nat.eqb_eq in H. destruct a; [reflexivity | discriminate].
    + apply endswith_spec in H. destruct H as [front ->].
      rewrite basename_from_app. reflexivity.
  - rewrite basename_from_app. cbn [lit list_ascii_of_string app].
    rewrite (basename_from_app ["/"] b). reflexivity.
Qed.

(** X6. [basename] undoes [join]: the base name of a joined path is the
    base name of its second part, whatever the first part is; it is the
    second part itself when that has no slash. *)
Theorem basename_of_join (a b : str) :
  basename (join a b) = basename b
  /\ (has_char "/" b = false -> basename (join a b) = b).
Proof.
  split; [apply basename_join|].
  intros H. rewrite basename_join. apply basename_no_slash. exact H.
Qed.

Lemma basename_of_join_witness :
  basename (join (lit "output_multiview/") (lit "mesh.glb")) = basename (lit "mesh.glb")
  /\ (has_char "/" (lit "mesh.glb") = false ->
      basename (join (lit "output_multiview/") (lit "mesh.glb")) = lit "mesh.glb").
Proof.
  exact (basename_of_join (lit "output_multiview/") (lit "mesh.glb")).
Defined.

(** * Further properties of the script *)

Lemma collect_images_spec dir files : forall acc,
  collect_images dir files acc = acc ++ map (join dir) (filter is_image_file files).
Proof.
  induction files as [|file files IH]; intros acc; cbn [collect_images filter].
  - symmetry. apply app_nil_r.
  - rewrite IH. destruct (is_image_file file); [|reflexivity].
    rewrite <- app_assoc. reflexivity.
Qed.

Lemma insert_sorted_perm x l : Permutation (insert_sorted x l) (x :: l).
Proof.
  induction l as [|y l IH]; cbn [insert_sorted]; [reflexivity|].
  destruct (str_leb x y); [reflexivity|].
  rewrite IH. apply perm_swap.
Qed.

Lemma sorted_perm l : Permutation (sorted l) l.
Proof.
  induction l as [|x l IH]; [reflexivity|].
  unfold sorted in *. cbn [fold_right]. rewrite insert_sorted_perm. auto.
Qed.

Lemma filter_perm A (f : A -> bool) l l' :
  Permutation l l' -> Permutation (filter f l) (filter f l').
Proof.
  induction 1 as [|x l l' H IH|x y l|l l' l'' H1 IH1 H2 IH2]; cbn [filter].
  - reflexivity.
  - destruct (f x); auto.
  - destruct (f x), (f y); auto using perm_swap.
  - etransitivity; eauto.
Qed.

Lemma str_leb_total a : forall b, str_leb a b = false -> str_leb b a = true.
Proof.
  induction a as [|c a IH]; intros [|d b]; cbn [str_leb]; try discriminate; auto.
  destruct (Nat.ltb_spec (nat_of_ascii c) (nat_of_ascii d)); [discriminate|].
  destruct (Nat.ltb_spec (nat_of_ascii d) (nat_of_ascii c)); [reflexivity|].
  apply IH.
Qed.

Lemma str_leb_trans a : forall b c,
  str_leb a b = true -> str_leb b c = true -> str_leb a c = true.
Proof.
  induction a as [|x a IH]; intros [|y b] [|z c]; cbn [str_leb]; try discriminate; auto.
  destruct (Nat.ltb_spec (nat_of_ascii x) (nat_of_ascii y)),
           (Nat.ltb_spec (nat_of_ascii y) (nat_of_ascii x)),
           (Nat.ltb_spec (nat_of_ascii y) (nat_of_ascii z)),
           (Nat.ltb_spec (nat_of_ascii z) (nat_of_ascii y)),
           (Nat.ltb_spec (nat_of_ascii x) (nat_of_ascii z)),
           (Nat.ltb_spec (nat_of_ascii z) (nat_of_ascii x));
    try discriminate; try lia; auto.
  apply IH.
Qed.

Lemma insert_sorted_sorted x l :
  StronglySorted str_le l -> StronglySorted str_le (insert_sorted x l).
Proof.
  induction 1 as [|y l Hl IH Hy]; cbn [insert_sorted].
  - repeat constructor.
  - destruct (str_leb x y) eqn:Hxy.
    + constructor; [constructor; assumption|].
      constructor; [exact Hxy|].
      eapply Forall_impl; [|exact Hy]. intros z Hz. exact (str_leb_trans _ _ _ Hxy Hz).
    + constructor; [exact IH|].
      apply Forall_forall. intros z Hz.
      apply (Permutation_in _ (insert_sorted_perm x l)) in Hz.
      destruct Hz as [<- | Hz].
      * apply str_leb_total. exact Hxy.
      * rewrite Forall_forall in Hy. auto.
Qed.

Lemma sorted_sorted l : StronglySorted str_le (sorted l).
Proof.
  induction l as [|x l IH]; [constructor|].
  unfold sorted in *. cbn [fold_right]. apply insert_sorted_sorted. exact IH.
Qed.

Lemma filter_sorted (f : str -> bool) l :
  StronglySorted str_le l -> StronglySorted str_le (filter f l).
Proof.
  induction 1 as [|y l Hl IH Hy]; cbn [filter]; [constructor|].
  destruct (f y); [|exact IH].
  constructor; [exact IH|].
  rewrite Forall_forall in *. intros z Hz. apply filter_In in Hz. apply Hy. tauto.
Qed.

(** X7. The scan hands on the image files of the directory, each joined
    to the directory, in the order of their names: the base names of the
    paths it finds are the image files of the listing, each as often as the
    listing has it, in ascending order. *)
Theorem scan_keeps_the_image_files_in_order (args : Namespace) (listing : list str) :
  forallb (fun f => negb (has_char "/" f)) listing = true ->
  find_images args listing
  = map (join (image_dir args)) (filter is_image_file (sorted listing))
  /\ map basename (find_images args listing) = filter is_image_file (sorted listing)
  /\ Permutation (map basename (find_images args listing)) (filter is_image_file listing)
  /\ StronglySorted str_le (map basename (find_images args listing)).
Proof.
  intros Hs. rewrite forallb_forall in Hs.
  assert (F : find_images args listing
              = map (join (image_dir args)) (filter is_image_file (sorted listing))).
  { unfold find_images. rewrite collect_images_spec. reflexivity. }
  assert (B : map basename (find_images args listing)
              = filter is_image_file (sorted listing)).
  { rewrite F, map_map. rewrite <- (map_id (filter is_image_file (sorted listing))) at 2.
    apply map_ext_in. intros f Hf. rewrite basename_join.
    apply basename_no_slash. apply filter_In in Hf. destruct Hf as [Hf _].
    apply (Permutation_in _ (sorted_perm listing)) in Hf.
    apply negb_true_iff. auto. }
  split; [exact F|]. split; [exact B|]. rewrite B. split.
  - apply filter_perm, sorted_perm.
  - apply filter_sorted, sorted_sorted.
Qed.

Lemma scan_witness :
  find_images sample_args [lit "b.PNG"; lit "notes.txt"; lit "a.jpeg"]
  = map (join (image_dir sample_args))
      (filter is_image_file (sorted [lit "b.PNG"; lit "notes.txt"; lit "a.jpeg"]))
  /\ map basename (find_images sample_args [lit "b.PNG"; lit "notes.txt"; lit "a.jpeg"])
     = filter is_image_file (sorted [lit "b.PNG"; lit "notes.txt"; lit "a.jpeg"])
  /\ Permutation
       (map basename (find_images sample_args [lit "b.PNG"; lit "notes.txt"; lit "a.jpeg"]))
       (filter is_image_file [lit "b.PNG"; lit "notes.txt"; lit "a.jpeg"])
  /\ StronglySorted str_le
       (map basename (find_images sample_args [lit "b.PNG"; lit "notes.txt"; lit "a.jpeg"])).
Proof.
  apply (scan_keeps_the_image_files_in_order sample_args
           [lit "b.PNG"; lit "notes.txt"; lit "a.jpeg"]).
  reflexivity.
Defined.

Lemma lower_char_dot c : lower_char c = "." -> c = ".".
Proof.
  destruct c as [b0 b1 b2 b3 b4 b5 b6 b7].
  destruct b0, b1, b2, b3, b4, b5, b6, b7; vm_compute; intros H;
    try reflexivity; discriminate.
Qed.

Lemma image_file_intro stem e :
  is_extension (lower e) = true -> is_image_file (stem ++ "." :: e) = true.
Proof.
  intros He. unfold is_image_file.
  assert (L : lower (stem ++ "." :: e) = lower stem ++ "." :: lower e).
  { unfold lower. rewrite map_app. reflexivity. }
  rewrite L. apply is_extension_cases in He. cbn [existsb].
  destruct He as [-> | [-> | ->]].
  - replace (endswith (lower stem ++ "." :: lit "png") (lit ".png")) with true;
      [reflexivity|]. symmetry. apply endswith_spec. eauto.
  - replace (endswith (lower stem ++ "." :: lit "jpg") (lit ".jpg")) with true;
      [apply orb_true_r|]. symmetry. apply endswith_spec. eauto.
  - replace (endswith (lower stem ++ "." :: lit "jpeg") (lit ".jpeg")) with true;
      [rewrite !orb_true_r; reflexivity|]. symmetry. apply endswith_spec. eauto.
Qed.

Lemma image_file_elim f :
  is_image_file f = true ->
  exists stem e, f = stem ++ "." :: e /\ is_extension (lower e) = true.
Proof.
  unfold is_image_file. cbn [existsb]. rewrite !orb_true_iff, !endswith_spec.
  assert (S : forall x, is_extension x = true ->
              (exists front, lower f = front ++ "." :: x) ->
              exists stem e, f = stem ++ "." :: e /\ is_extension (lower e) = true).
  { intros x Hx [front E]. unfold lower in E. apply map_eq_app in E.
    destruct E as (f1 & f2 & -> & _ & E2).
    destruct f2 as [|c e]; [discriminate|]. cbn [map] in E2.
    injection E2 as Hc He. apply lower_char_dot in Hc. subst c.
    exists f1, e. split; [reflexivity|]. unfold lower. rewrite He. exact Hx. }
  intros [H | [H | [H | H]]]; [| | |discriminate].
  - apply (S (lit "png")); [reflexivity | exact H].
  - apply (S (lit "jpg")); [reflexivity | exact H].
  - apply (S (lit "jpeg")); [reflexivity | exact H].
Qed.

(** X8. The scan takes for an image file exactly a name that ends in a dot
    and png, jpg or jpeg written in any letter case. *)
Theorem image_files_by_extension_in_any_case (f : str) :
  is_image_file f = true
  <-> exists stem e, f = stem ++ "." :: e /\ is_extension (lower e) = true.
Proof.
  split.
  - apply image_file_elim.
  - intros (stem & e & -> & He). apply image_file_intro. exact He.
Qed.

Lemma image_files_witness : is_image_file (lit "View 3.JpEg") = true.
Proof.
  apply (image_files_by_extension_in_any_case (lit "View 3.JpEg")).
  exists (lit "View 3"), (lit "JpEg"). split; reflexivity.
Defined.

(** X9. The pattern and the scan agree in one direction: a name without
    newlines that matches [position_pattern] is an image file for the scan.
    (The converse fails: the scan also keeps names with an extension in
    upper case, which the pattern rejects.) *)
Theorem matching_names_are_image_files (f : str) (m : groups) :
  re_match position_pattern f = Some m ->
  one_line f = true ->
  is_image_file f = true.
Proof.
  intros M Hf. apply one_line_no_newline in Hf.
  apply re_match_position_inv in M.
  destruct M as (pre & g1 & g2 & g3 & e & tail & -> & _ & _ & _ & _ & He & Ht & _).
  destruct Ht as [-> | ->].
  - rewrite position_name_stem. apply image_file_intro.
    rewrite (lower_extension_fixed _ He). exact He.
  - exfalso. apply Hf. rewrite position_name_tail.
    apply in_or_app. right. left. reflexivity.
Qed.

Lemma matching_names_witness : is_image_file (lit "a_1_2_3.jpg") = true.
Proof.
  apply (matching_names_are_image_files (lit "a_1_2_3.jpg")
           (position_groups (lit "1") (lit "2") (lit "3") (lit "jpg")));
    reflexivity.
Defined.

Lemma extract_returns images args :
  exists result out, extract_structured_camera_positions images args = (Return result, out).
Proof.
  destruct (extract_spec images args) as (positions & _ & E). rewrite E.
  destruct (List.length positions =? List.length images)%nat; [eauto|].
  destruct (0 <? List.length positions)%nat; eauto.
Qed.

(** X10. What the script hands to the model: at least two image paths,
    those the scan found, and camera positions only when
    [--detect-camera-positions] is given and every base filename matches,
    then one triple per path; the count of images is the last line
    printed. *)
Theorem discover_hands_on_aligned_inputs
    (args : Namespace) (listing : list str)
    (paths : list str) (cp : option (list position)) (out : list str) :
  discover args listing = (Return (paths, cp), out) ->
  paths = find_images args listing
  /\ 2 <= List.length paths
  /\ (exists front, out = front ++ [msg_found (List.length paths)])
  /\ (detect_camera_positions args = false ->
      cp = None /\ out = [msg_found (List.length paths)])
  /\ (forall positions, cp = Some positions ->
        detect_camera_positions args = true
        /\ forallb matched paths = true
        /\ List.length positions = List.length paths).
Proof.
  unfold discover. intros H.
  destruct (Nat.ltb_spec (List.length (find_images args listing)) 2) as [|Hl];
    [discriminate|].
  destruct (detect_camera_positions args) eqn:D.
  - destruct (extract_structured_camera_positions (find_images args listing) args)
      as [r o] eqn:E.
    destruct r as [r|e]; [|discriminate].
    injection H as <- <- <-.
    split; [reflexivity|]. split; [exact Hl|]. split; [eauto|].
    split; [discriminate|].
    intros positions ->. split; [reflexivity|].
    assert (E' : fst (extract_structured_camera_positions (find_images args listing) args)
                 = Return (Some positions)) by (rewrite E; reflexivity).
    split.
    + destruct (extract_spec (find_images args listing) args) as (ps & F & E2).
      rewrite E2 in E'.
      destruct (Nat.eqb_spec (List.length ps) (List.length (find_images args listing)))
        as [L | L]; [|destruct (0 <? List.length ps)%nat; discriminate].
      apply filter_length_all.
      rewrite (Forall2_length_eq _ _ _ _ _ F). exact L.
    + destruct (extract_spec (find_images args listing) args) as (ps & F & E2).
      rewrite E2 in E'.
      destruct (Nat.eqb_spec (List.length ps) (List.length (find_images args listing)))
        as [L | L]; [|destruct (0 <? List.length ps)%nat; discriminate].
      simpl in E'. injection E' as <-. exact L.
  - injection H as <- <- <-.
    split; [reflexivity|]. split; [exact Hl|]. split; [exists []; reflexivity|].
    split; [auto | discriminate].
Qed.

Lemma discover_witness :
  [lit "views/a_1_2_3.png"; lit "views/b_4_5_6.jpg"]
  = find_images sample_args [lit "b_4_5_6.jpg"; lit "a_1_2_3.png"]
  /\ 2 <= List.length [lit "views/a_1_2_3.png"; lit "views/b_4_5_6.jpg"]
  /\ (exists front,
        [msg_extracted 2; msg_found 2]
        = front ++ [msg_found (List.length [lit "views/a_1_2_3.png"; lit "views/b_4_5_6.jpg"])])
  /\ (detect_camera_positions sample_args = false ->
      Some [[S754_finite false 4503599627370496 (-52);
             S754_finite false 4503599627370496 (-51);
             S754_finite false 6755399441055744 (-51)];
            [S754_finite false 4503599627370496 (-50);
             S754_finite false 5629499534213120 (-50);
             S754_finite false 6755399441055744 (-50)]] = None
      /\ [msg_extracted 2; msg_found 2]
         = [msg_found (List.length [lit "views/a_1_2_3.png"; lit "views/b_4_5_6.jpg"])])
  /\ (forall positions,
        Some [[S754_finite false 4503599627370496 (-52);
               S754_finite false 4503599627370496 (-51);
               S754_finite false 6755399441055744 (-51)];
              [S754_finite false 4503599627370496 (-50);
               S754_finite false 5629499534213120 (-50);
               S754_finite false 6755399441055744 (-50)]] = Some positions ->
        detect_camera_positions sample_args = true
        /\ forallb matched [lit "views/a_1_2_3.png"; lit "views/b_4_5_6.jpg"] = true
        /\ List.length positions
           = List.length [lit "views/a_1_2_3.png"; lit "views/b_4_5_6.jpg"]).
Proof.
  apply (discover_hands_on_aligned_inputs sample_args
           [lit "b_4_5_6.jpg"; lit "a_1_2_3.png"]).
  reflexivity.
Defined.

(** X11. The only exception of the script between the scan and the report
    of the count is the [ValueError] of a directory with fewer than two
    image files, raised before anything is printed; the extractor adds
    none. *)
Theorem discover_raises_only_for_too_few_images
    (args : Namespace) (listing : list str) (e : exn) (out : list str) :
  discover args listing = (Raise e, out)
  <-> List.length (filter is_image_file listing) < 2
      /\ e = ValueError (msg_too_few (List.length (filter is_image_file listing))
                           (image_dir args))
      /\ out = [].
Proof.
  unfold discover. rewrite find_images_length.
  destruct (Nat.ltb_spec (List.length (filter is_image_file listing)) 2) as [Hl | Hl].
  - split.
    + intros H. injection H as <- <-. auto.
    + intros (_ & -> & ->). reflexivity.
  - split; [|lia]. intros H. exfalso.
    destruct (detect_camera_positions args).
    + destruct (extract_returns (find_images args listing) args) as (r & o & E).
      rewrite E in H. discriminate.
    + discriminate.
Qed.

Lemma discover_raises_witness :
  discover sample_args [lit "a_1_2_3.png"; lit "readme.md"]
  = (Raise (ValueError (msg_too_few 1 (lit "views"))), []).
Proof.
  apply (discover_raises_only_for_too_few_images sample_args
           [lit "a_1_2_3.png"; lit "readme.md"]).
  repeat split. vm_compute. lia.
Defined.

Lemma startswith_spec s pre :
  startswith s pre = true <-> exists back, s = pre ++ back.
Proof.
  unfold startswith. rewrite str_eqb_eq. split.
  - intros H. exists (skipn (List.length pre) s).
    pose proof (firstn_skipn (List.length pre) s) as FS. rewrite H in FS.
    symmetry. exact FS.
  - intros [back ->]. rewrite firstn_app, Nat.sub_diag, firstn_all. apply app_nil_r.
Qed.

(** [needle in hay] holds exactly when [hay] is [needle] between two
    strings. *)
Lemma contains_spec hay needle :
  contains hay needle = true <-> exists a b, hay = a ++ needle ++ b.
Proof.
  induction hay as [|c hay IH]; cbn [contains]; rewrite orb_true_iff, startswith_spec.
  - split.
    + intros [[back E] | H]; [|discriminate]. exists [], back. exact E.
    + intros (a & b & E). left. destruct a; [exists b; exact E | discriminate].
  - rewrite IH. split.
    + intros [[back E] | (a & b & E)].
      * exists [], back. exact E.
      * exists (c :: a), b. rewrite E. reflexivity.
    + intros (a & b & E). destruct a as [|x a].
      * left. exists b. exact E.
      * right. injection E as _ E. eauto.
Qed.

Lemma check_device_accepts device :
  check_device device = Return tt
  <-> exists d a b, In d devices /\ d = a ++ device ++ b.
Proof.
  unfold check_device.
  destruct (existsb (fun d => contains d device) devices) eqn:H; cbn [negb].
  - split; [intros _|reflexivity].
    apply existsb_exists in H. destruct H as (d & Hd & Hc).
    apply contains_spec in Hc. destruct Hc as (a & b & E). eauto.
  - split; [discriminate|]. intros (d & a & b & Hd & E). exfalso.
    assert (T : existsb (fun d => contains d device) devices = true).
    { apply existsb_exists. exists d. split; [exact Hd|].
      apply contains_spec. eauto. }
    congruence.
Qed.

Lemma accepted_device_short device :
  check_device device = Return tt -> List.length device <= 4 /\ ~ In ":" device.
Proof.
  intros H. apply check_device_accepts in H.
  destruct H as (d & a & b & Hd & E).
  assert (L : List.length d <= 4 /\ ~ In ":" d).
  { unfold devices in Hd. cbn [In] in Hd.
    destruct Hd as [<- | [<- | [<- | []]]]; (split; [simpl; lia|]);
      simpl; intuition discriminate. }
  destruct L as [L N]. rewrite E in L, N. rewrite !length_app in L. split; [lia|].
  intros Hin. apply N. apply in_or_app. right. apply in_or_app. left. exact Hin.
Qed.

(** X12. The device check accepts exactly the strings that occur inside
    cuda, mps or cpu, and raises [ValueError] on every other: an accepted
    string has at most four characters and no colon (a device written with
    an index, as cuda:0, is rejected), and the empty string is accepted. *)
Theorem device_check_accepts_substrings (device : str) :
  (check_device device = Return tt
   <-> exists d a b, In d devices /\ d = a ++ device ++ b)
  /\ (check_device device = Return tt
      \/ check_device device = Raise (ValueError (lit "Invalid device. Use cuda, mps or cpu")))
  /\ (check_device device = Return tt -> List.length device <= 4 /\ ~ In ":" device)
  /\ check_device [] = Return tt.
Proof.
  split; [apply check_device_accepts|]. split; [|split].
  - unfold check_device. destruct (existsb (fun d => contains d device) devices); auto.
  - apply accepted_device_short.
  - reflexivity.
Qed.

Lemma device_check_witness :
  check_device (lit "cuda:0") = Raise (ValueError (lit "Invalid device. Use cuda, mps or cpu")).
Proof.
  destruct (device_check_accepts_substrings (lit "cuda:0")) as (_ & [H | H] & S & _).
  - exfalso. destruct (S H) as [L _]. simpl in L. lia.
  - exact H.
Defined.

(** X13. After the device check, the reconstruction runs under autocast
    exactly when the device given is cuda and an accelerator (CUDA or MPS)
    is available; without an accelerator the device is cpu whatever was
    given. *)
Theorem autocast_only_for_cuda
    (device : str) (cuda_available mps_available : bool) (device' : str) (autocast : bool) :
  device_setup device cuda_available mps_available = Return (device', autocast) ->
  (autocast = true <-> device = lit "cuda" /\ cuda_available || mps_available = true)
  /\ (cuda_available || mps_available = false -> device' = lit "cpu")
  /\ (cuda_available || mps_available = true -> device' = device).
Proof.
  unfold device_setup. destruct (check_device device) as [[]|e] eqn:C; [|discriminate].
  cbn [bind]. intros H. injection H as <- <-. unfold select_device.
  destruct (cuda_available || mps_available); cbn [negb].
  - split; [|split; [discriminate | reflexivity]].
    split.
    + intros H. split; [|reflexivity].
      unfold uses_autocast in H. apply contains_spec in H. destruct H as (a & b & E).
      destruct (accepted_device_short _ C) as [L _].
      rewrite E, !length_app in L. simpl in L.
      destruct a; [|simpl in L; lia]. destruct b; [|simpl in L; lia].
      exact E.
    + intros [-> _]. reflexivity.
  - split; [|split; [reflexivity | discriminate]].
    split; [discriminate | intros [_ H]; discriminate].
Qed.

Lemma autocast_witness :
  (true = true <-> lit "cuda" = lit "cuda" /\ false || true = true)
  /\ (false || true = false -> lit "cuda" = lit "cpu")
  /\ (false || true = true -> lit "cuda" = lit "cuda").
Proof.
  apply (autocast_only_for_cuda (lit "cuda") false true (lit "cuda") true).
  reflexivity.
Defined.

(** X14. Without a remesher the script cannot compute the vertex count:
    the two remeshing options are not defined, so a command line that is
    accepted gives neither, the namespace has neither attribute, and
    reading [args.reduction_count_type] raises [AttributeError]. *)
Theorem no_remesher_no_vertex_count
    (py_int : str -> outcome Z) (dir : str) (detect : bool)
    (given_type given_count : option str) (args : Namespace) :
  parse_args py_int false false dir detect given_type given_count = Return args ->
  given_type = None /\ given_count = None
  /\ reduction_count_type args = None /\ target_count args = None
  /\ vertex_count args
     = Raise (AttributeError
                (lit "'Namespace' object has no attribute 'reduction_count_type'")).
Proof.
  unfold parse_args, parse_reduction. cbn [orb].
  destruct given_type, given_count; cbn [bind]; try discriminate.
  intros H. injection H as <-. repeat split; reflexivity.
Qed.

Lemma no_remesher_witness :
  (@None str) = None /\ (@None str) = None
  /\ reduction_count_type sample_args = None /\ target_count sample_args = None
  /\ vertex_count sample_args
     = Raise (AttributeError
                (lit "'Namespace' object has no attribute 'reduction_count_type'")).
Proof.
  apply (no_remesher_no_vertex_count int_of_str (lit "views") true None None sample_args).
  reflexivity.
Defined.

Lemma parse_choice_in choices default given v :
  In default choices -> parse_choice choices default given = Return v -> In v choices.
Proof.
  unfold parse_choice. intros Hd. destruct given as [w|].
  - destruct (existsb (str_eqb w) choices) eqn:E; [|discriminate].
    intros H. injection H as <-. apply existsb_exists in E.
    destruct E as (c & Hc & Ec). apply str_eqb_eq in Ec. subst. exact Hc.
  - intros H. injection H as <-. exact Hd.
Qed.

Lemma parse_target_count_positive py_int given n :
  parse_target_count py_int given = Return n -> (0 < n)%Z.
Proof.
  unfold parse_target_count, check_positive. destruct given as [value|].
  - destruct (py_int value) as [i|e]; cbn [bind]; [|discriminate].
    destruct (Z.leb_spec i 0) as [Hi | Hi]; [discriminate|].
    intros E. injection E as <-. exact Hi.
  - intros H. injection H as <-. reflexivity.
Qed.

(** X15. With a remesher, a command line that is accepted always gives a
    vertex count: the type of count is keep, vertex or faces, the target
    count is positive, and the vertex count is -1 for keep and otherwise
    between 0 and the target count; it is 0 only for faces with a target
    of 1. *)
Theorem remesher_gives_a_vertex_count
    (py_int : str -> outcome Z) (triangle quad : bool) (dir : str) (detect : bool)
    (given_type given_count : option str) (args : Namespace) :
  triangle || quad = true ->
  parse_args py_int triangle quad dir detect given_type given_count = Return args ->
  exists t n v,
    reduction_count_type args = Some t
    /\ In t [lit "keep"; lit "vertex"; lit "faces"]
    /\ target_count args = Some n /\ (0 < n)%Z
    /\ vertex_count args = Return v
    /\ (t = lit "keep" -> v = (-1)%Z)
    /\ (t <> lit "keep" -> (0 <= v <= n)%Z)
    /\ (v = 0%Z -> t = lit "faces" /\ n = 1%Z).
Proof.
  intros Hav. unfold parse_args, parse_reduction. rewrite Hav.
  destruct (parse_choice [lit "keep"; lit "vertex"; lit "faces"] (lit "keep") given_type)
    as [t|e] eqn:Ht; cbn [bind]; [|discriminate].
  destruct (parse_target_count py_int given_count) as [n|e] eqn:Hn; cbn [bind];
    [|discriminate].
  intros H. injection H as <-. cbn [reduction_count_type target_count fst snd].
  apply parse_choice_in in Ht; [|left; reflexivity].
  apply parse_target_count_positive in Hn.
  exists t, n. unfold vertex_count. cbn [reduction_count_type target_count getattr bind].
  cbn [In] in Ht. destruct Ht as [<- | [<- | [<- | []]]].
  - exists (-1)%Z. repeat split; auto; intros; try congruence.
    cbn [In]. auto.
  - exists n. repeat split; auto; intros; try discriminate; try lia.
    cbn [In]. auto.
  - exists (n / 2)%Z.
    pose proof (Z.mul_div_le n 2) as Dl. pose proof (Z.mul_succ_div_gt n 2) as Dg.
    repeat split; auto; intros; try discriminate; try lia.
    cbn [In]. auto.
Qed.

Lemma remesher_witness :
  let args := {| image_dir := lit "views"; detect_camera_positions := false;
                 reduction_count_type := Some (lit "faces");
                 target_count := Some 1%Z |} in
  exists t n v,
    reduction_count_type args = Some t
    /\ In t [lit "keep"; lit "vertex"; lit "faces"]
    /\ target_count args = Some n /\ (0 < n)%Z
    /\ vertex_count args = Return v
    /\ (t = lit "keep" -> v = (-1)%Z)
    /\ (t <> lit "keep" -> (0 <= v <= n)%Z)
    /\ (v = 0%Z -> t = lit "faces" /\ n = 1%Z).
Proof.
  intros args.
  apply (remesher_gives_a_vertex_count int_of_str true false (lit "views") false
           (Some (lit "faces")) (Some (lit "1")) args); reflexivity.
Defined.

(** The value [read_digits] returns does not depend on the count it
    starts from. *)
Lemma read_digits_value s : forall acc n,
  fst (fst (read_digits s acc n)) = fst (fst (read_digits s acc 0)).
Proof.
  induction s as [|c s IH]; intros acc n; cbn [read_digits]; [reflexivity|].
  destruct (is_digit c); [|reflexivity].
  rewrite IH. symmetry. apply IH.
Qed.

Lemma read_digits_zeros k s : forall n,
  fst (fst (read_digits (repeat "0" k ++ s) 0%N n)) = fst (fst (read_digits s 0%N 0)).
Proof.
  induction k as [|k IH]; intros n; cbn [repeat app].
  - apply read_digits_value.
  - cbn [read_digits]. change (is_digit "0") with true. cbv iota.
    change (10 * 0 + digit_value "0")%N with 0%N. apply IH.
Qed.

Lemma read_digits_step c s acc n :
  is_digit c = true ->
  read_digits (c :: s) acc n = read_digits s (10 * acc + digit_value c)%N (S n).
Proof. intros H. cbn [read_digits]. rewrite H. reflexivity. Qed.

(** Reading back the decimal of a number, in front of a character that is
    no digit. *)
Lemma read_digits_uint_empty d rest : forall a n,
  match rest with [] => True | c :: _ => is_digit c = false end ->
  fst (fst (read_digits (lit (NilEmpty.string_of_uint d) ++ rest) (N.of_nat a) n))
  = N.of_nat (Nat.of_uint_acc d a).
Proof.
  intros a n Hrest. revert a n.
  induction d as [|d IH|d IH|d IH|d IH|d IH|d IH|d IH|d IH|d IH|d IH]; intros a n;
    cbn [NilEmpty.string_of_uint Nat.of_uint_acc];
    try (unfold lit; cbn [list_ascii_of_string app]; fold (lit (NilEmpty.string_of_uint d));
         rewrite read_digits_step by reflexivity;
         rewrite Nat.tail_mul_spec;
         match goal with
         | |- fst (fst (read_digits _ (10 * _ + digit_value ?c)%N _))
              = N.of_nat (Nat.of_uint_acc _ ?b) =>
             let v := eval vm_compute in (digit_value c) in
             change (digit_value c) with v;
             replace (10 * N.of_nat a + v)%N with (N.of_nat b) by lia
         end;
         apply IH).
  unfold lit. cbn [list_ascii_of_string app].
  destruct rest as [|c rest]; cbn [read_digits]; [reflexivity|].
  rewrite Hrest. reflexivity.
Qed.

Lemma read_digits_uint d rest n :
  match rest with [] => True | c :: _ => is_digit c = false end ->
  fst (fst (read_digits (lit (NilZero.string_of_uint d) ++ rest) 0%N n))
  = N.of_nat (Nat.of_uint d).
Proof.
  intros Hrest. unfold Nat.of_uint. destruct d;
    try exact (read_digits_uint_empty _ rest 0 n Hrest).
  cbn [NilZero.string_of_uint lit list_ascii_of_string app read_digits].
  change (is_digit "0") with true. cbv iota.
  destruct rest as [|c rest]; cbn [read_digits]; [reflexivity|].
  rewrite Hrest. reflexivity.
Qed.

Lemma uint_digits d : forallb is_digit (lit (NilEmpty.string_of_uint d)) = true.
Proof.
  induction d; cbn [NilEmpty.string_of_uint lit list_ascii_of_string forallb];
    try reflexivity; exact IHd.
Qed.

Lemma str_of_nat_digits i : forallb is_digit (str_of_nat i) = true.
Proof.
  unfold str_of_nat. destruct (Nat.to_uint i); try reflexivity; apply uint_digits.
Qed.

Lemma digits_no_slash s : forallb is_digit s = true -> has_char "/" s = false.
Proof.
  intros H. apply has_char_false. intros Hin.
  rewrite forallb_forall in H. specialize (H _ Hin). discriminate.
Qed.

Lemma leading_number_padded i k rest :
  match rest with [] => True | c :: _ => is_digit c = false end ->
  leading_number (repeat "0" k ++ str_of_nat i ++ rest) = i.
Proof.
  intros Hrest. unfold leading_number. rewrite read_digits_zeros.
  unfold str_of_nat.
  rewrite (read_digits_uint (Nat.to_uint i) rest 0 Hrest).
  rewrite Nnat.Nat2N.id. apply DecimalNat.Unsigned.of_to.
Qed.

Lemma input_name_number i : leading_number (skipn 6 (input_name i)) = i.
Proof.
  unfold input_name, zero_pad. cbn [lit list_ascii_of_string app skipn].
  rewrite <- app_assoc. apply leading_number_padded. reflexivity.
Qed.

(** X16. The files of the preprocessed inputs are named after the index
    of the view: the number after [input_] in the base name of the i-th file
    is i, the name has at least three digits, and so the files of [n] views
    are [n] distinct files, none overwriting another. *)
Theorem saved_inputs_are_distinct (output_dir : str) (n : nat) :
  (forall i, basename (input_path output_dir i) = input_name i
             /\ leading_number (skipn 6 (input_name i)) = i
             /\ 13 <= List.length (input_name i))
  /\ List.length (saved_inputs output_dir n) = n
  /\ NoDup (saved_inputs output_dir n).
Proof.
  assert (B : forall i, basename (input_path output_dir i) = input_name i).
  { intros i. unfold input_path. rewrite basename_join. apply basename_no_slash.
    unfold input_name, zero_pad.
    rewrite !has_char_app, (digits_no_slash _ (str_of_nat_digits i)).
    replace (has_char "/" (repeat "0" (3 - List.length (str_of_nat i)))) with false;
      [reflexivity|].
    symmetry. apply has_char_false. intros Hin. apply repeat_spec in Hin. discriminate. }
  split; [|split].
  - intros i. split; [apply B|]. split; [apply input_name_number|].
    unfold input_name, zero_pad. rewrite !length_app, repeat_length.
    cbn [lit list_ascii_of_string List.length]. lia.
  - unfold saved_inputs. rewrite length_map, length_seq. reflexivity.
  - unfold saved_inputs. apply Injective_map_NoDup; [|apply seq_NoDup].
    intros i j E.
    assert (E' : input_name i = input_name j) by (rewrite <- !B; congruence).
    rewrite <- (input_name_number i), <- (input_name_number j), E'. reflexivity.
Qed.

(** * Further properties of the coordinates *)

Local Open Scope Z_scope.

Lemma shr_1_nonneg mrs : 0 <= shr_m mrs -> 0 <= shr_m (shr_1 mrs).
Proof.
  destruct mrs as [m r s0]. cbn [shr_m]. unfold shr_1.
  destruct m as [|[p|p|]|[p|p|]]; cbn [shr_m]; lia.
Qed.

Lemma shr_nonneg mrs e n : 0 <= shr_m mrs -> 0 <= shr_m (fst (shr mrs e n)).
Proof.
  intros H. unfold shr. destruct n as [|p|p]; cbn [fst]; try exact H.
  rewrite iter_pos_nat. induction (Pos.to_nat p) as [|k IH]; cbn [Nat.iter];
    [exact H | apply shr_1_nonneg; exact IH].
Qed.

Lemma shr_fexp_nonneg m e l : 0 <= m -> 0 <= shr_m (fst (shr_fexp prec emax m e l)).
Proof.
  intros H. unfold shr_fexp. apply shr_nonneg.
  destruct l as [|[]]; cbn [shr_record_of_loc shr_m]; exact H.
Qed.

Lemma round_nearest_even_nonneg m l : 0 <= m -> 0 <= round_nearest_even m l.
Proof.
  intros H. unfold round_nearest_even. destruct l as [|[]]; try lia.
  destruct (Z.even m); lia.
Qed.

(** Rounding a non-negative mantissa gives a number of the sign asked
    for. *)
Lemma binary_round_aux_sign sx mx ex lx :
  0 <= mx -> sign_of (binary_round_aux prec emax sx mx ex lx) = Some sx.
Proof.
  intros H. unfold binary_round_aux.
  pose proof (shr_fexp_nonneg mx ex lx H) as H1.
  destruct (shr_fexp prec emax mx ex lx) as [mrs' e'] eqn:E1. cbn [fst] in H1.
  pose proof (shr_fexp_nonneg
                (round_nearest_even (shr_m mrs') (loc_of_shr_record mrs')) e' loc_Exact
                (round_nearest_even_nonneg _ _ H1)) as H2.
  destruct (shr_fexp prec emax
              (round_nearest_even (shr_m mrs') (loc_of_shr_record mrs')) e' loc_Exact)
    as [mrs'' e''] eqn:E2. cbn [fst] in H2.
  destruct (shr_m mrs'') as [|m|m]; [reflexivity | | lia].
  destruct (e'' <=? emax - prec); reflexivity.
Qed.

Lemma round_decimal_sign neg m k : sign_of (round_decimal neg m k) = Some neg.
Proof.
  unfold round_decimal. destruct m as [|p]; [reflexivity|].
  unfold SFdiv.
  destruct (SFdiv_core_binary prec emax (Zpos p) 0 (Zpos (pow10 k)) 0) as [[q e] l] eqn:E.
  rewrite xorb_false_r. apply binary_round_aux_sign.
  unfold SFdiv_core_binary in E.
  change IntDef.Z.div_eucl with Z.div_eucl in E.
  change IntDef.Z.shiftl with Z.shiftl in E.
  match type of E with
  | context [Z.div_eucl ?M ?D] =>
      pose proof (Z.div_pos M D) as Q; unfold Z.div in Q;
      destruct (Z.div_eucl M D) as [q0 r0]
  end.
  injection E as E1 _ _. subst q. cbn [fst] in Q. apply Q; [|lia].
  match goal with
  | |- 0 <= match ?s with _ => _ end =>
      destruct s as [|sp|sp] eqn:Es; [lia | | lia]
  end.
  rewrite Z.shiftl_mul_pow2 by lia.
  apply Z.mul_nonneg_nonneg; [lia | apply Z.pow_nonneg; lia].
Qed.

Local Close Scope Z_scope.

Lemma decimal_unsigned_sign neg body r :
  decimal_unsigned neg body = Some r -> fst (fst r) = neg.
Proof.
  unfold decimal_unsigned.
  destruct (read_digits body 0%N 0) as [[ip ni] rest].
  destruct rest as [|c frac].
  - destruct (ni =? 0)%nat; [discriminate|]. intros H. injection H as <-. reflexivity.
  - destruct (Ascii.eqb c "."); [|discriminate].
    destruct (read_digits frac ip 0) as [[m nf] rest'].
    destruct rest'; [|discriminate].
    destruct (ni + nf =? 0)%nat; [discriminate|]. intros H. injection H as <-. reflexivity.
Qed.

Lemma py_float_sign s x :
  py_float s = Return x -> sign_of x = Some (startswith s (lit "-")).
Proof.
  unfold py_float.
  destruct (decimal_of_str s) as [[[neg m] k]|] eqn:E; [|discriminate].
  intros H. injection H as <-. rewrite round_decimal_sign. f_equal.
  unfold decimal_of_str in E. destruct s as [|c t]; [discriminate|].
  unfold startswith. cbn [lit list_ascii_of_string List.length firstn str_eqb].
  rewrite andb_true_r.
  destruct (Ascii.eqb c "-") eqn:Hm.
  - apply decimal_unsigned_sign in E. exact E.
  - destruct (Ascii.eqb c "+"); apply decimal_unsigned_sign in E; exact E.
Qed.

(** X17. Every coordinate of a triple read from a file name is a number
    with the sign written in the name: negative (minus zero included)
    exactly when its group starts with a minus; it is never NaN. *)
Theorem coordinates_are_signed_as_written (p : str) (pos : position) :
  parsed_from p pos ->
  exists m g1 g2 g3 x y z,
    re_match position_pattern (basename p) = Some m
    /\ group m 1 = Some g1 /\ group m 2 = Some g2 /\ group m 3 = Some g3
    /\ pos = [x; y; z]
    /\ sign_of x = Some (startswith g1 (lit "-"))
    /\ sign_of y = Some (startswith g2 (lit "-"))
    /\ sign_of z = Some (startswith g3 (lit "-"))
    /\ Forall (fun c => c <> S754_nan) pos.
Proof.
  intros (m & x & y & z & M & Fx & Fy & Fz & ->).
  unfold float_group in Fx, Fy, Fz.
  destruct (group m 1) as [g1|] eqn:G1; [|discriminate].
  destruct (group m 2) as [g2|] eqn:G2; [|discriminate].
  destruct (group m 3) as [g3|] eqn:G3; [|discriminate].
  apply py_float_sign in Fx, Fy, Fz.
  exists m, g1, g2, g3, x, y, z. repeat split; auto.
  repeat (constructor; [intros E; rewrite E in *; discriminate|]). constructor.
Qed.

Lemma coordinates_witness :
  exists m g1 g2 g3 x y z,
    re_match position_pattern (basename (lit "views/a_-0_1.5_-2.png")) = Some m
    /\ group m 1 = Some g1 /\ group m 2 = Some g2 /\ group m 3 = Some g3
    /\ [S754_zero true; S754_finite false 6755399441055744 (-52);
        S754_finite true 4503599627370496 (-51)] = [x; y; z]
    /\ sign_of x = Some (startswith g1 (lit "-"))
    /\ sign_of y = Some (startswith g2 (lit "-"))
    /\ sign_of z = Some (startswith g3 (lit "-"))
    /\ Forall (fun c => c <> S754_nan)
         [S754_zero true; S754_finite false 6755399441055744 (-52);
          S754_finite true 4503599627370496 (-51)].
Proof.
  apply (coordinates_are_signed_as_written (lit "views/a_-0_1.5_-2.png")).
  exists (position_groups (lit "-0") (lit "1.5") (lit "-2") (lit "png")),
    (S754_zero true), (S754_finite false 6755399441055744 (-52)),
    (S754_finite true 4503599627370496 (-51)).
  repeat split; reflexivity.
Defined.

(** * Further properties of the extractor: composition *)

Lemma parsed_from_functional p a b : parsed_from p a -> parsed_from p b -> a = b.
Proof.
  intros (m & x & y & z & M & Fx & Fy & Fz & ->) (m' & x' & y' & z' & M' & Fx' & Fy' & Fz' & ->).
  rewrite M in M'. injection M' as <-. congruence.
Qed.

Lemma Forall2_parsed_functional l : forall a b,
  Forall2 parsed_from l a -> Forall2 parsed_from l b -> a = b.
Proof.
  induction l as [|p l IH]; intros a b Ha Hb; inversion Ha; inversion Hb; subst;
    [reflexivity|].
  f_equal; [eapply parsed_from_functional; eassumption | apply IH; assumption].
Qed.

(** The extractor returns the list [ps] exactly when every path matches
    and [ps] holds the triple of each path, in order. *)
Lemma returns_list_spec images args ps :
  fst (extract_structured_camera_positions images args) = Return (Some ps)
  <-> forallb matched images = true /\ Forall2 parsed_from images ps.
Proof.
  split.
  - intros H. destruct (extract_spec images args) as (qs & F & E). rewrite E in H.
    pose proof (Forall2_length_eq _ _ _ _ _ F) as L.
    destruct (Nat.eqb_spec (List.length qs) (List.length images)) as [Hl | Hl];
      [|destruct (0 <? List.length qs)%nat; discriminate].
    simpl in H. injection H as <-.
    assert (A : forallb matched images = true) by (apply filter_length_all; congruence).
    split; [exact A|].
    rewrite forallb_forall in A. rewrite (filter_all _ _ _ A) in F. exact F.
  - intros [A F]. destruct (full_coverage_spec images args A) as (qs & E & F').
    rewrite E. cbn [fst]. do 2 f_equal. eapply Forall2_parsed_functional; eassumption.
Qed.

(** X18. Extraction distributes over concatenation: the extractor
    returns a list on [l1 ++ l2] exactly when it returns one on [l1] and one
    on [l2], and the list is then the two lists one after the other. *)
Theorem extraction_of_a_concatenation (l1 l2 : list str) (args : Namespace)
    (ps : list position) :
  fst (extract_structured_camera_positions (l1 ++ l2) args) = Return (Some ps)
  <-> exists p1 p2,
        fst (extract_structured_camera_positions l1 args) = Return (Some p1)
        /\ fst (extract_structured_camera_positions l2 args) = Return (Some p2)
        /\ ps = p1 ++ p2.
Proof.
  rewrite returns_list_spec. split.
  - intros [A F]. rewrite forallb_app in A. apply andb_true_iff in A.
    destruct A as [A1 A2].
    apply Forall2_app_inv_l in F. destruct F as (p1 & p2 & F1 & F2 & ->).
    exists p1, p2. rewrite !returns_list_spec. auto.
  - intros (p1 & p2 & H1 & H2 & ->). rewrite returns_list_spec in H1, H2.
    destruct H1 as [A1 F1], H2 as [A2 F2].
    rewrite forallb_app, A1, A2. split; [reflexivity|].
    apply Forall2_app; assumption.
Qed.

Lemma extraction_of_a_concatenation_witness :
  fst (extract_structured_camera_positions
         ([lit "a_1_2_3.png"] ++ [lit "b_-1.5_0_0.5.jpg"]) sample_args)
  = Return (Some ([[S754_finite false 4503599627370496 (-52);
                    S754_finite false 4503599627370496 (-51);
                    S754_finite false 6755399441055744 (-51)]]
                  ++ [[S754_finite true 6755399441055744 (-52);
                       S754_zero false;
                       S754_finite false 4503599627370496 (-53)]])).
Proof.
  apply (extraction_of_a_concatenation [lit "a_1_2_3.png"] [lit "b_-1.5_0_0.5.jpg"]).
  eexists. eexists. repeat split; reflexivity.
Defined.

Lemma number_not_empty g : is_number g = true -> 1 <= List.length g.
Proof. destruct g; [discriminate | simpl; lia]. Qed.

Lemma extension_length e : is_extension e = true -> 3 <= List.length e.
Proof.
  intros H. apply is_extension_cases in H. destruct H as [-> | [-> | ->]]; simpl; lia.
Qed.

Lemma count_underscore_digits s :
  forallb is_digit s = true -> count_occ ascii_dec s "_" = 0.
Proof.
  intros H. apply count_occ_not_In. intros Hin.
  rewrite forallb_forall in H. specialize (H _ Hin). discriminate.
Qed.

(** A name that matches has three underscores and ten characters at
    least. *)
Lemma match_needs_three_underscores f m :
  re_match position_pattern f = Some m ->
  3 <= count_occ ascii_dec f "_" /\ 10 <= List.length f.
Proof.
  intros M. apply re_match_position_inv in M.
  destruct M as (pre & g1 & g2 & g3 & e & tail & -> & _ & H1 & H2 & H3 & He & _ & _).
  apply number_not_empty in H1, H2, H3. apply extension_length in He.
  unfold position_name.
  change (pre ++ "_" :: g1 ++ "_" :: g2 ++ "_" :: g3 ++ "." :: e ++ tail)
    with (pre ++ ["_"] ++ g1 ++ ["_"] ++ g2 ++ ["_"] ++ g3 ++ ["."] ++ e ++ tail).
  rewrite !count_occ_app, !length_app. simpl. lia.
Qed.

Lemma input_name_no_match i : matched (input_path [] i) = false.
Proof.
  unfold matched.
  destruct (re_match position_pattern (basename (input_path [] i))) as [m|] eqn:M;
    [|reflexivity].
  exfalso. apply match_needs_three_underscores in M. destruct M as [M _].
  unfold input_path in M. rewrite basename_join in M.
  assert (C : count_occ ascii_dec (basename (input_name i)) "_" = 1).
  { rewrite basename_no_slash.
    - unfold input_name, zero_pad. rewrite !count_occ_app.
      rewrite (count_underscore_digits (str_of_nat i)) by apply str_of_nat_digits.
      rewrite (count_underscore_digits (repeat "0" _)); [reflexivity|].
      apply forallb_forall. intros c Hc. apply repeat_spec in Hc. subst. reflexivity.
    - unfold input_name, zero_pad.
      rewrite !has_char_app, (digits_no_slash _ (str_of_nat_digits i)).
      replace (has_char "/" (repeat "0" (3 - List.length (str_of_nat i)))) with false;
        [reflexivity|].
      symmetry. apply has_char_false. intros Hin. apply repeat_spec in Hin.
      discriminate. }
  lia.
Qed.

(** X19. A base filename that matches has three underscores and ten
    characters at least; the names the script gives to the preprocessed
    inputs have one underscore and never match, so the extractor returns
    [None] and prints nothing on the inputs the script saved. *)
Theorem saved_inputs_carry_no_position
    (output_dir : str) (n : nat) (args : Namespace) :
  n <> 0 ->
  (forall f m, re_match position_pattern f = Some m ->
     3 <= count_occ ascii_dec f "_" /\ 10 <= List.length f)
  /\ extract_structured_camera_positions (saved_inputs output_dir n) args
     = (Return None, []).
Proof.
  intros Hn. split; [apply match_needs_three_underscores|].
  apply no_coverage_spec.
  - unfold saved_inputs. destruct n; [congruence|]. discriminate.
  - intros p Hp. unfold saved_inputs in Hp. apply in_map_iff in Hp.
    destruct Hp as (i & <- & _).
    pose proof (input_name_no_match i) as N. unfold matched in *.
    unfold input_path in *. rewrite basename_join in *. exact N.
Qed.

Lemma saved_inputs_witness :
  (forall f m, re_match position_pattern f = Some m ->
     3 <= count_occ ascii_dec f "_" /\ 10 <= List.length f)
  /\ extract_structured_camera_positions
       (saved_inputs (lit "output_multiview/") 3) sample_args
     = (Return None, []).
Proof.
  apply (saved_inputs_carry_no_position (lit "output_multiview/") 3 sample_args).
  discriminate.
Defined.
